(** * osdt: the datetime overlay of [src/main.c]

    A shallow embedding of the render loop of the overlay: the wait until
    the next second, the classification of X events, the layout of the
    window from the measured text, and the order of the requests a redraw
    sends.  C integers are [Z] with the wrap-around of every cast written
    out; a C [double] is a rational ([Q]) and a sum or difference of
    doubles is rounded to binary64; what libc, xcb and cairo answer is an
    input of the model. *)

From Stdlib Require Import ZArith QArith Qround Lia List String Ascii Bool.
From Stdlib Require Import Qpower Qreduction.
From Stdlib Require Import DecimalString.
From Stdlib Require Import Lqa.
Import ListNotations.

Local Open Scope Z_scope.

(** ** Machine integers *)

Module CInt.

(** Conversion to an unsigned type of [bits] bits: reduction modulo 2^bits. *)
Definition to_unsigned (bits z : Z) : Z := z mod 2 ^ bits.

(** Conversion to a signed type of [bits] bits (two's complement, as gcc
    defines the out-of-range case). *)
Definition to_signed (bits z : Z) : Z :=
  (z + 2 ^ (bits - 1)) mod 2 ^ bits - 2 ^ (bits - 1).

Definition to_uint8 : Z -> Z := to_unsigned 8.
Definition to_uint16 : Z -> Z := to_unsigned 16.
Definition to_uint32 : Z -> Z := to_unsigned 32.
Definition to_int16 : Z -> Z := to_signed 16.
Definition to_int32 : Z -> Z := to_signed 32.

Definition INT_MIN : Z := - 2 ^ 31.
Definition INT_MAX : Z := 2 ^ 31 - 1.

Definition in_int (z : Z) : bool := (INT_MIN <=? z) && (z <=? INT_MAX).

(** [int] arithmetic: an overflowing signed operation has no defined
    result. *)
Definition int_add (a b : Z) : option Z :=
  if in_int (a + b) then Some (a + b) else None.
Definition int_sub (a b : Z) : option Z :=
  if in_int (a - b) then Some (a - b) else None.
Definition int_mul (a b : Z) : option Z :=
  if in_int (a * b) then Some (a * b) else None.

(** [(int)d] for a double [d]: the fractional part is discarded (toward
    zero); a value outside [int] has no defined result. *)
Definition Qtrunc (d : Q) : Z := Z.quot (Qnum d) (Z.pos (Qden d)).
Definition double_to_int (d : Q) : option Z :=
  if in_int (Qtrunc d) then Some (Qtrunc d) else None.

End CInt.
Import CInt.

(** The option monad threads undefined results through a computation. *)
Definition bind {A B : Type} (m : option A) (k : A -> option B) : option B :=
  match m with
  | Some a => k a
  | None => None
  end.

Notation "x <- m ;; k" := (bind m (fun x => k))
  (at level 61, m at next level, right associativity).

(** ** Sleeping: [ms_to_next_second] *)

(** [struct timespec], as [clock_gettime(CLOCK_REALTIME, &ts)] fills it. *)
Record timespec := { tv_sec : Z; tv_nsec : Z }.

(** [clock_gettime] returns the nanoseconds within the second. *)
Definition timespec_valid (ts : timespec) : Prop :=
  0 <= tv_nsec ts < 1000000000.

(** The body of [ms_to_next_second] after the clock has been read into
    [ts]; [/] and [%] on [long] are C's truncating operators. *)
Definition ms_to_next_second (ts : timespec) : Z :=
  let ms := Z.quot (tv_nsec ts) 1000000 in
  let rem := 1000 - Z.rem ms 1000 in
  if rem =? 1000 then 0 else rem.

(** The instant of [ts] in whole milliseconds since the epoch: the spec's
    [nowMillis]. *)
Definition nowMillis (ts : timespec) : Z :=
  tv_sec ts * 1000 + tv_nsec ts / 1000000.

(** ** Time formatter: [now_timestr] *)

(** [struct tm], the fields [strftime] reads for the two formats. *)
Record tm := {
  tm_sec : Z; tm_min : Z; tm_hour : Z;
  tm_mday : Z; tm_mon : Z; tm_year : Z
}.

(** What [localtime_r] guarantees, for a year of four digits. *)
Definition tm_validb (lt : tm) : bool :=
  (0 <=? tm_sec lt) && (tm_sec lt <=? 60) &&
  (0 <=? tm_min lt) && (tm_min lt <=? 59) &&
  (0 <=? tm_hour lt) && (tm_hour lt <=? 23) &&
  (1 <=? tm_mday lt) && (tm_mday lt <=? 31) &&
  (0 <=? tm_mon lt) && (tm_mon lt <=? 11) &&
  (1000 <=? tm_year lt + 1900) && (tm_year lt + 1900 <=? 9999).

(** A number in decimal, as [printf("%d")] writes it. *)
Definition dec (z : Z) : string := NilZero.string_of_int (Z.to_int z).

(** A number on at least two digits, as [printf("%02d")] writes it. *)
Definition dec2 (z : Z) : string :=
  let s := dec z in
  if (Z.of_nat (String.length s) <? 2) then String "0" s else s.

(** The conversion specifications the program's formats use. *)
Definition conversion (c : ascii) (lt : tm) : option string :=
  if Ascii.eqb c "Y" then Some (dec (tm_year lt + 1900))
  else if Ascii.eqb c "m" then Some (dec2 (tm_mon lt + 1))
  else if Ascii.eqb c "d" then Some (dec2 (tm_mday lt))
  else if Ascii.eqb c "H" then Some (dec2 (tm_hour lt))
  else if Ascii.eqb c "M" then Some (dec2 (tm_min lt))
  else if Ascii.eqb c "S" then Some (dec2 (tm_sec lt))
  else None.

(** The expansion of a format: ordinary characters are copied, [%c] is
    converted. *)
Fixpoint expand (fmt : string) (lt : tm) : option string :=
  match fmt with
  | EmptyString => Some EmptyString
  | String "%" (String c rest) =>
      s <- conversion c lt ;;
      r <- expand rest lt ;;
      Some (s ++ r)%string
  | String c rest =>
      r <- expand rest lt ;;
      Some (String c r)
  end.

(** [strftime(buf, max, fmt, tm)]: the expansion when it fits [max] bytes
    with its terminating NUL, and no defined buffer otherwise. *)
Definition strftime (max : Z) (fmt : string) (lt : tm) : option string :=
  s <- expand fmt lt ;;
  if Z.of_nat (String.length s) + 1 <=? max then Some s else None.

(** ** Draining: the X events *)

(** Event codes of the X protocol ([xcb/xproto.h]). *)
Definition XCB_EXPOSE : Z := 12.
Definition XCB_VISIBILITY_NOTIFY : Z := 15.
Definition XCB_CONFIGURE_NOTIFY : Z := 22.

(** [xcb_generic_event_t]; the loop reads [response_type] only. *)
Record xcb_generic_event_t := { response_type : Z }.

Definition event_name (rt : Z) : string :=
  if rt =? XCB_EXPOSE then "Expose"
  else if rt =? XCB_VISIBILITY_NOTIFY then "VisibilityNotify"
  else if rt =? XCB_CONFIGURE_NOTIFY then "ConfigureNotify"
  else "Other".

(** [uint8_t rt = ev->response_type & ~0x80]. *)
Definition event_rt (ev : xcb_generic_event_t) : Z :=
  to_uint8 (Z.land (response_type ev) (Z.lnot 128)).

(** The test of the drain loop's body. *)
Definition wants_redraw (rt : Z) : bool :=
  (rt =? XCB_EXPOSE) || (rt =? XCB_VISIBILITY_NOTIFY)
  || (rt =? XCB_CONFIGURE_NOTIFY).

(** ** Configuration and measurements *)

(** [options_t]; [margin_px] is a [uint32_t]. *)
Record options_t := {
  font_family : string;
  font_size_px : Q;
  margin_px : Z;
  fg_r : Q; fg_g : Q; fg_b : Q;
  bg_r : Q; bg_g : Q; bg_b : Q;
  time_only : bool;
  debug : bool
}.

Record cairo_text_extents_t := {
  x_bearing : Q; y_bearing : Q;
  width : Q; height : Q;
  x_advance : Q; y_advance : Q
}.

Record cairo_font_extents_t := {
  ascent : Q; descent : Q; fe_height : Q;
  max_x_advance : Q; max_y_advance : Q
}.

(** The library functions whose answers the loop consumes: the local time
    of an instant, and the measurements of a string and of a font for a
    family and a size. *)
Record libs := {
  localtime_r : Z -> tm;
  cairo_text_extents : string -> Q -> string -> cairo_text_extents_t;
  cairo_font_extents : string -> Q -> cairo_font_extents_t
}.

(** [now_timestr(buf, bufsz, time_only)], with [t] what [time(NULL)]
    returned. *)
Definition now_timestr (L : libs) (t : Z) (bufsz : Z) (time_only : bool)
  : option string :=
  let lt := localtime_r L t in
  let fmt := if time_only then "%H:%M:%S"%string
             else "%Y-%m-%d %H:%M:%S"%string in
  strftime bufsz fmt lt.

(** ** Arithmetic on [double] *)

(** The value of a double is a rational with a significand of at most 53
    bits. The sum of two doubles is the double nearest to the exact sum,
    the even one of two equally near. The range of the exponent is left
    open: the sums of the program are far from overflow, and a sum of two
    doubles too small for a normal number is exact in binary64 as it is
    here. *)

(** [2^e]. *)
Definition p2 (e : Z) : Q := Qpower 2 e.

(** The binade of a positive number: the [j] with [2^j <= q < 2^(j+1)]. *)
Definition ilog2 (q : Q) : Z :=
  let k := Z.log2 (Qnum q) - Z.log2 (Z.pos (Qden q)) in
  if Qle_bool (p2 k) q then k else k - 1.

(** The spacing of the doubles in the binade of [q]. *)
Definition ulp (q : Q) : Q := p2 (ilog2 q - 52).

(** The nearest integer, the even one of two equally near. *)
Definition rne (q : Q) : Z :=
  let f := Qfloor q in
  match Qcompare (q - inject_Z f) (1 # 2) with
  | Lt => f
  | Gt => f + 1
  | Eq => if Z.even f then f else f + 1
  end.

Definition round_pos (q : Q) : Q := (inject_Z (rne (q / ulp q)) * ulp q)%Q.

(** The double nearest to [q]. *)
Definition round64 (q : Q) : Q :=
  match Qcompare q 0 with
  | Eq => 0%Q
  | Gt => Qred (round_pos q)
  | Lt => Qred (- round_pos (- q))
  end.

(** [q] is the value of a double. *)
Definition is_double (q : Q) : bool := Qeq_bool (round64 q) q.

(** [x + y] and [x - y] on doubles. *)
Definition fadd (x y : Q) : Q := round64 (x + y).
Definition fsub (x y : Q) : Q := round64 (x - y).

(** ** Layout: lines 353 to 361 of [main] *)

Record layout_t := {
  text_w : Z; text_h : Z;
  pad : Z;
  win_w : Z; win_h : Z;
  new_x : Z; new_y : Z
}.

Definition half : Q := 1 # 2.

(** Lines 353 and 354: the measured text rounded to whole pixels. *)
Definition text_size (te : cairo_text_extents_t) (fe : cairo_font_extents_t)
  : option (Z * Z) :=
  text_w <- double_to_int (fadd (x_advance te) half) ;;
  text_h <- double_to_int (fadd (fadd (ascent fe) (descent fe)) half) ;;
  Some (text_w, text_h).

(** Lines 356 to 358: [pad], [win_w] and [win_h]; [pad * 2] and the sums
    are computed in [int]. *)
Definition window_size (margin_px text_w text_h : Z) : option (Z * Z * Z) :=
  let pad := to_uint16 margin_px in
  pw <- int_mul pad 2 ;;
  sw <- int_add text_w pw ;;
  let win_w := to_uint16 sw in
  ph <- int_mul pad 2 ;;
  sh <- int_add text_h ph ;;
  let win_h := to_uint16 sh in
  Some (pad, win_w, win_h).

(** Lines 360 and 361: [new_x] and [new_y]. *)
Definition window_pos (margin_px width_in_pixels win_w : Z) : option (Z * Z) :=
  dx <- int_sub (to_int32 width_in_pixels) (to_int32 win_w) ;;
  dm <- int_sub dx (to_int32 margin_px) ;;
  let new_x := to_int16 dm in
  let new_y := to_int16 margin_px in
  Some (new_x, new_y).

Definition layout (opt : options_t) (width_in_pixels : Z)
  (te : cairo_text_extents_t) (fe : cairo_font_extents_t) : option layout_t :=
  ts <- text_size te fe ;;
  let (text_w, text_h) := ts in
  ws <- window_size (margin_px opt) text_w text_h ;;
  let '(pad, win_w, win_h) := ws in
  xy <- window_pos (margin_px opt) width_in_pixels win_w ;;
  let (new_x, new_y) := xy in
  Some {| text_w := text_w; text_h := text_h; pad := pad;
          win_w := win_w; win_h := win_h;
          new_x := new_x; new_y := new_y |}.

(** ** What the loop sends out *)

Definition XCB_CONFIG_WINDOW_X : Z := 1.
Definition XCB_CONFIG_WINDOW_Y : Z := 2.
Definition XCB_CONFIG_WINDOW_WIDTH : Z := 4.
Definition XCB_CONFIG_WINDOW_HEIGHT : Z := 8.
Definition XCB_CONFIG_WINDOW_STACK_MODE : Z := 64.
Definition XCB_STACK_MODE_ABOVE : Z := 0.
Definition EINTR : Z := 4.

(** The two cairo contexts of [main]. *)
Inductive cairo_ctx := measure_cr | cr.

(** The calls with an effect outside the process, in program order. *)
Inductive request :=
| Poll (timeout : Z)
| DebugEvent (name : string) (rt : Z)
| DebugTick (str : string) (text_w text_h win_w win_h new_x new_y : Z)
| XcbConfigureWindow (mask : Z) (values : list Z)
| XcbFlush
| CairoXcbSurfaceCreate (w h : Z)
| CairoCreate
| CairoSetSourceRgb (r g b : Q)
| CairoPaint
| CairoSelectFontFace (c : cairo_ctx) (family : string)
| CairoSetFontSize (c : cairo_ctx) (size : Q)
| CairoMoveTo (x y : Q)
| CairoShowText (s : string)
| CairoSurfaceFlush
| CairoDestroy
| CairoSurfaceDestroy.

(** The state the loop carries from one iteration to the next: the events
    queued on the connection, [last_str], and the requests sent so far. *)
Record loop_state := {
  xqueue : list xcb_generic_event_t;
  last_str : string;
  sent : list request
}.

(** What the outside world decides for one iteration: the clock read by
    [ms_to_next_second], the events that arrive during the wait, what
    [poll] returns with the [errno] it leaves, and the [time(NULL)] of a
    redraw. *)
Record wake := {
  clock : timespec;
  arrivals : list xcb_generic_event_t;
  pr : Z;
  errno : Z;
  now : Z
}.

(** ** Draining *)

(** One turn of the [while] loop on the event [ev]. *)
Definition drain_step (ev : xcb_generic_event_t) (need_redraw : bool) : bool :=
  let rt := event_rt ev in
  if wants_redraw rt then true else need_redraw.

Definition drain_log (dbg : bool) (ev : xcb_generic_event_t) : list request :=
  let rt := event_rt ev in
  if dbg then [DebugEvent (event_name rt) rt] else [].

(** [while ((ev = xcb_poll_for_event(cconn)) != NULL)]: every queued event
    is taken, in order, until the queue is empty. *)
Fixpoint drain_events (dbg : bool) (queue : list xcb_generic_event_t)
  (need_redraw : bool) : bool * list request :=
  match queue with
  | [] => (need_redraw, [])
  | ev :: rest =>
      let (flag, log) := drain_events dbg rest (drain_step ev need_redraw) in
      (flag, drain_log dbg ev ++ log)
  end.

(** [if (pr == 0) need_redraw = true]. *)
Definition tick (pr : Z) (need_redraw : bool) : bool :=
  if pr =? 0 then true else need_redraw.

(** ** Redrawing: lines 339 to 403 of [main] *)

Definition config_mask : Z :=
  let mask := 0 in
  let mask := Z.lor mask XCB_CONFIG_WINDOW_X in
  let mask := Z.lor mask XCB_CONFIG_WINDOW_Y in
  let mask := Z.lor mask XCB_CONFIG_WINDOW_WIDTH in
  let mask := Z.lor mask XCB_CONFIG_WINDOW_HEIGHT in
  let mask := Z.lor mask XCB_CONFIG_WINDOW_STACK_MODE in
  to_uint16 mask.

(** [strncpy(last_str, nowbuf, sizeof(last_str)-1)] and the NUL stored at
    the last index. *)
Definition strncpy63 (s : string) : string := String.substring 0 63 s.

(** The requests of a redraw once the text and the layout are known. *)
Definition redraw_requests (opt : options_t) (nowbuf : string)
  (te : cairo_text_extents_t) (fe : cairo_font_extents_t) (g : layout_t)
  : list request :=
  let cfg := [to_uint32 (new_x g); to_uint32 (new_y g);
              to_uint32 (win_w g); to_uint32 (win_h g);
              XCB_STACK_MODE_ABOVE] in
  let text_x := fsub (inject_Z (pad g)) (x_bearing te) in
  let text_y := fadd (inject_Z (pad g)) (ascent fe) in
  [XcbConfigureWindow config_mask cfg]
  ++ (if debug opt
      then [DebugTick nowbuf (text_w g) (text_h g) (win_w g) (win_h g)
              (new_x g) (new_y g)]
      else [])
  ++ [CairoXcbSurfaceCreate (win_w g) (win_h g);
      CairoCreate;
      CairoSetSourceRgb (bg_r opt) (bg_g opt) (bg_b opt);
      CairoPaint;
      CairoSelectFontFace cr (font_family opt);
      CairoSetFontSize cr (font_size_px opt);
      CairoSetSourceRgb (fg_r opt) (fg_g opt) (fg_b opt);
      CairoMoveTo text_x text_y;
      CairoShowText nowbuf;
      CairoSurfaceFlush;
      CairoDestroy;
      CairoSurfaceDestroy;
      XcbFlush].

(** The body of [if (need_redraw)]: the new [last_str] and the requests,
    or nothing defined when the formatting or the layout has no defined
    result. *)
Definition redraw (L : libs) (opt : options_t) (width_in_pixels : Z)
  (t : Z) : option (string * list request) :=
  nowbuf <- now_timestr L t 64 (time_only opt) ;;
  let te := cairo_text_extents L (font_family opt) (font_size_px opt) nowbuf in
  let fe := cairo_font_extents L (font_family opt) (font_size_px opt) in
  g <- layout opt width_in_pixels te fe ;;
  Some (strncpy63 nowbuf,
        [CairoSelectFontFace measure_cr (font_family opt);
         CairoSetFontSize measure_cr (font_size_px opt)]
        ++ redraw_requests opt nowbuf te fe g).

(** ** The loop *)

(** [pr < 0 && errno == EINTR]. *)
Definition interrupted (w : wake) : bool :=
  (pr w <? 0) && (errno w =? EINTR).

(** One iteration of [for (;;)]. *)
Definition loop_body (L : libs) (opt : options_t) (width_in_pixels : Z)
  (w : wake) (st : loop_state) : option loop_state :=
  let timeout_ms := ms_to_next_second (clock w) in
  let queue := (xqueue st ++ arrivals w)%list in
  let polled := (sent st ++ [Poll (to_int32 timeout_ms)])%list in
  if interrupted w then
    (* continue *)
    Some {| xqueue := queue; last_str := last_str st; sent := polled |}
  else
    let need_redraw := false in
    let (need_redraw, log) := drain_events (debug opt) queue need_redraw in
    let need_redraw := tick (pr w) need_redraw in
    if need_redraw then
      r <- redraw L opt width_in_pixels (now w) ;;
      Some {| xqueue := []; last_str := fst r;
              sent := (polled ++ log ++ snd r)%list |}
    else
      Some {| xqueue := []; last_str := last_str st;
              sent := (polled ++ log)%list |}.

(** The value of [need_redraw] at [if (need_redraw)] in an iteration that
    is not interrupted. *)
Definition need_redraw_at_decision (opt : options_t) (w : wake)
  (st : loop_state) : bool :=
  tick (pr w)
    (fst (drain_events (debug opt) (xqueue st ++ arrivals w)%list false)).

(** A finite prefix of the loop, one [wake] per iteration. *)
Fixpoint run (L : libs) (opt : options_t) (width_in_pixels : Z)
  (ws : list wake) (st : loop_state) : option loop_state :=
  match ws with
  | [] => Some st
  | w :: rest =>
      st' <- loop_body L opt width_in_pixels w st ;;
      run L opt width_in_pixels rest st'
  end.

(** The state [main] enters the loop with. *)
Definition initial_state : loop_state :=
  {| xqueue := []; last_str := ""; sent := [] |}.

(** The requests an iteration added to those of [st]. *)
Definition added (st st' : loop_state) : list request :=
  skipn (List.length (sent st)) (sent st').

Definition is_configure (r : request) : bool :=
  match r with XcbConfigureWindow _ _ => true | _ => false end.

Definition is_surface_create (r : request) : bool :=
  match r with CairoXcbSurfaceCreate _ _ => true | _ => false end.

Definition is_flush (r : request) : bool :=
  match r with XcbFlush => true | _ => false end.

(** Requests that draw into the window's surface. *)
Definition is_paint (r : request) : bool :=
  match r with
  | CairoPaint | CairoShowText _ => true
  | _ => false
  end.

Definition count (p : request -> bool) (l : list request) : nat :=
  List.length (filter p l).

(** ** The spec's words *)

(** Rounding to the nearest integer, halves upward. *)
Definition round_half_up (q : Q) : Z := Qfloor (q + half)%Q.

(** The window width and height as section 4.3 of the spec writes them. *)
Definition spec_width (advanceWidth : Q) (margin : Z) : Z :=
  Qceiling advanceWidth + 2 * margin.
Definition spec_height (asc desc : Q) (margin : Z) : Z :=
  Qceiling (asc + desc)%Q + 2 * margin.

(** ** Inputs for which every step of a redraw is defined *)

(** The validated configuration: a margin and a screen width for which the
    subtractions of line 360 stay in [int]. *)
Definition config_okb (opt : options_t) (width_in_pixels : Z) : bool :=
  (0 <=? margin_px opt) && (margin_px opt <? 2 ^ 31 - 2 ^ 16) &&
  (0 <=? width_in_pixels) && (width_in_pixels <? 2 ^ 16).

(** Measurements that are not negative and far inside [int], with an
    advance that is the value of a double (the ascent and the descent enter
    the layout through their sum as a double). *)
Definition measured_okb (te : cairo_text_extents_t)
  (fe : cairo_font_extents_t) : bool :=
  is_double (x_advance te) &&
  Qle_bool 0 (x_advance te) && Qle_bool (x_advance te) (inject_Z (2 ^ 30)) &&
  Qle_bool 0 (ascent fe + descent fe) &&
  Qle_bool (ascent fe + descent fe) (inject_Z (2 ^ 30)).

(** A redraw at time [t] is defined: valid local time, valid configuration,
    and valid measurements of the string of that time. *)
Definition tick_okb (L : libs) (opt : options_t) (width_in_pixels : Z)
  (t : Z) : bool :=
  tm_validb (localtime_r L t) && config_okb opt width_in_pixels &&
  match now_timestr L t 64 (time_only opt) with
  | Some nowbuf =>
      measured_okb
        (cairo_text_extents L (font_family opt) (font_size_px opt) nowbuf)
        (cairo_font_extents L (font_family opt) (font_size_px opt))
  | None => false
  end.

(** The spec's tagged variant of incoming events. *)
Inductive event_kind := Expose | VisibilityChange | ConfigureNotify | Other.

Definition classify (rt : Z) : event_kind :=
  if rt =? XCB_EXPOSE then Expose
  else if rt =? XCB_VISIBILITY_NOTIFY then VisibilityChange
  else if rt =? XCB_CONFIGURE_NOTIFY then ConfigureNotify
  else Other.

Definition redraw_kind (k : event_kind) : bool :=
  match k with
  | Expose | VisibilityChange | ConfigureNotify => true
  | Other => false
  end.

(** Two decimal digits and four decimal digits of a number. *)
Definition digit (d : Z) : ascii := ascii_of_N (48 + Z.to_N d).
Definition two_digits (n : Z) : string :=
  String (digit (n / 10)) (String (digit (n mod 10)) EmptyString).
Definition four_digits (n : Z) : string :=
  (two_digits (n / 100) ++ two_digits (n mod 100))%string.

(** [f] holds on the [len] integers from [lo] on. *)
Definition range_all (lo len : Z) (f : Z -> bool) : bool :=
  forallb (fun i => f (lo + Z.of_nat i)) (seq 0 (Z.to_nat len)).

(** ** A concrete environment *)

(** The local time of a host whose timezone is UTC: the civil date of the
    day number and the time within the day. *)
Definition utc_localtime (t : Z) : tm :=
  let days := t / 86400 in
  let secs := t mod 86400 in
  let z := days + 719468 in
  let era := z / 146097 in
  let doe := z - era * 146097 in
  let yoe := (doe - doe / 1460 + doe / 36524 - doe / 146096) / 365 in
  let doy := doe - (365 * yoe + yoe / 4 - yoe / 100) in
  let mp := (5 * doy + 2) / 153 in
  let d := doy - (153 * mp + 2) / 5 + 1 in
  let m := if mp <? 10 then mp + 3 else mp - 9 in
  let y := yoe + era * 400 + (if m <=? 2 then 1 else 0) in
  {| tm_sec := secs mod 60; tm_min := (secs / 60) mod 60;
     tm_hour := secs / 3600;
     tm_mday := d; tm_mon := m - 1; tm_year := y - 1900 |}.

(** A fixed-pitch font: every character advances by [adv] pixels. *)
Definition fixed_pitch (adv asc desc : Q) : libs :=
  {| localtime_r := utc_localtime;
     cairo_text_extents := fun _ _ s =>
       {| x_bearing := 1; y_bearing := - asc;
          width := inject_Z (Z.of_nat (String.length s)) * adv - 1;
          height := asc + desc;
          x_advance := inject_Z (Z.of_nat (String.length s)) * adv;
          y_advance := 0 |};
     cairo_font_extents := fun _ _ =>
       {| ascent := asc; descent := desc; fe_height := asc + desc;
          max_x_advance := adv; max_y_advance := 0 |} |}.

(** The defaults of [main], and the options of the spec's scenario. *)
Definition default_options : options_t :=
  {| font_family := "DejaVu Sans Mono"; font_size_px := 16; margin_px := 8;
     fg_r := 1; fg_g := 1; fg_b := 1; bg_r := 0; bg_g := 0; bg_b := 0;
     time_only := false; debug := false |}.

Definition with_margin (opt : options_t) (m : Z) : options_t :=
  {| font_family := font_family opt; font_size_px := font_size_px opt;
     margin_px := m;
     fg_r := fg_r opt; fg_g := fg_g opt; fg_b := fg_b opt;
     bg_r := bg_r opt; bg_g := bg_g opt; bg_b := bg_b opt;
     time_only := time_only opt; debug := debug opt |}.

Definition with_time_only (opt : options_t) (b : bool) : options_t :=
  {| font_family := font_family opt; font_size_px := font_size_px opt;
     margin_px := margin_px opt;
     fg_r := fg_r opt; fg_g := fg_g opt; fg_b := fg_b opt;
     bg_r := bg_r opt; bg_g := bg_g opt; bg_b := bg_b opt;
     time_only := b; debug := debug opt |}.

(** Measurements with a given advance, ascent and descent. *)
Definition extents_of (adv : Q) : cairo_text_extents_t :=
  {| x_bearing := 0; y_bearing := 0; width := adv; height := 0;
     x_advance := adv; y_advance := 0 |}.
Definition font_of (asc desc : Q) : cairo_font_extents_t :=
  {| ascent := asc; descent := desc; fe_height := asc + desc;
     max_x_advance := 0; max_y_advance := 0 |}.

(** The local instant 2024-01-15T09:05:03 of the spec, broken down. *)
Definition instant_2024_01_15 : tm :=
  {| tm_sec := 3; tm_min := 5; tm_hour := 9;
     tm_mday := 15; tm_mon := 0; tm_year := 124 |}.

(** The wakes and the state used to run the theorems of the loop: a wait
    that times out one tenth of a millisecond before 09:05:03, a wait cut
    short by a signal, and a wait ended by an Expose event. *)
Definition wake_timeout : wake :=
  {| clock := {| tv_sec := 1705309502; tv_nsec := 999900000 |};
     arrivals := []; pr := 0; errno := 0; now := 1705309503 |}.

Definition wake_signal : wake :=
  {| clock := {| tv_sec := 1705309502; tv_nsec := 250000000 |};
     arrivals := [{| response_type := 12 |}]; pr := -1; errno := 4;
     now := 1705309502 |}.

Definition wake_expose : wake :=
  {| clock := {| tv_sec := 1705309502; tv_nsec := 400000000 |};
     arrivals := [{| response_type := 2 |}; {| response_type := 12 |}];
     pr := 1; errno := 0; now := 1705309502 |}.

Definition time_only_options : options_t :=
  with_time_only default_options true.

(** ** Colours: [parse_hex2] and [parse_rgb_hex] *)

Definition char_code (c : ascii) : Z := Z.of_N (N_of_ascii c).

(** [p[i]] in a NUL-terminated string: the byte after the last character
    is the NUL. *)
Definition char_at (p : string) (i : nat) : ascii :=
  match String.get i p with
  | Some c => c
  | None => zero
  end.

(** [strlen]: the characters before the first NUL. *)
Fixpoint strlen (p : string) : nat :=
  match p with
  | EmptyString => O
  | String c rest => if Ascii.eqb c zero then O else S (strlen rest)
  end.

(** [p + n]. *)
Fixpoint skip (n : nat) (p : string) : string :=
  match n, p with
  | O, _ => p
  | S k, EmptyString => EmptyString
  | S k, String _ rest => skip k rest
  end.

Definition between (lo hi : ascii) (c : ascii) : bool :=
  (char_code lo <=? char_code c) && (char_code c <=? char_code hi).

(** [isxdigit((unsigned char)c)]. *)
Definition isxdigit (c : ascii) : bool :=
  between "0" "9" c || between "a" "f" c || between "A" "F" c.

(** One turn of the [for] loop of [parse_hex2] on the character [c]:
    [None] is [return -1]. *)
Definition hex_turn (c : ascii) (v : Z) : option Z :=
  if negb (isxdigit c) then None
  else
    let v := Z.shiftl v 4 in
    if between "0" "9" c then Some (Z.lor v (char_code c - char_code "0"))
    else if between "a" "f" c
      then Some (Z.lor v (char_code c - char_code "a" + 10))
    else if between "A" "F" c
      then Some (Z.lor v (char_code c - char_code "A" + 10))
    else Some v.

(** The loop of [parse_hex2] from index [i], with [turns] turns left. *)
Fixpoint parse_hex2_from (p : string) (i turns : nat) (v : Z) : Z :=
  match turns with
  | O => v
  | S k =>
      match hex_turn (char_at p i) v with
      | None => -1
      | Some v' => parse_hex2_from p (S i) k v'
      end
  end.

Definition parse_hex2 (p : string) : Z := parse_hex2_from p 0 2 0.

(** [parse_rgb_hex]: [None] is [return false], which leaves the three
    outputs untouched. *)
Definition parse_rgb_hex (hex : string) : option (Q * Q * Q) :=
  let p := if Ascii.eqb (char_at hex 0) "#" then skip 1 hex else hex in
  if negb (Nat.eqb (strlen p) 6) then None
  else
    let rr := parse_hex2 p in
    let gg := parse_hex2 (skip 2 p) in
    let bb := parse_hex2 (skip 4 p) in
    if (rr <? 0) || (gg <? 0) || (bb <? 0) then None
    else Some (rr # 255, gg # 255, bb # 255).

(** The value of a hexadecimal digit, and two digits written out. *)
Definition hexval (c : ascii) : Z :=
  if between "0" "9" c then char_code c - 48
  else if between "a" "f" c then char_code c - 87
  else char_code c - 55.

Definition hex_char (upper : bool) (d : Z) : ascii :=
  ascii_of_N (Z.to_N (if d <? 10 then 48 + d
                      else (if upper then 55 else 87) + d)).

Definition hex2 (upper : bool) (n : Z) : string :=
  String (hex_char upper (n / 16))
    (String (hex_char upper (n mod 16)) EmptyString).

(** A channel of a colour lies in [0, 1]. *)
Definition channel_ok (q : Q) : Prop := (0 <= q)%Q /\ (q <= 1)%Q.

(** Every character satisfies [f]. *)
Definition all_ascii (f : ascii -> bool) : bool :=
  forallb (fun n => f (ascii_of_nat n)) (seq 0 256).

(** ** Command line: the [getopt_long] loop of [main] *)

(** The two conversions of libc the loop calls. *)
Record libc := {
  strtod : string -> Q;
  strtoul : string -> Z
}.

(** What one call of [getopt_long] hands to the loop. *)
Record getopt_result := { opt_c : Z; optarg : string }.

Inductive message := HelpText | InvalidFg | InvalidBg.

(** [main] returns with a status after printing, or goes on. *)
Inductive startup :=
| Return (status : Z) (printed : message)
| Proceed (opt : options_t).

Definition with_font (opt : options_t) (f : string) : options_t :=
  {| font_family := f; font_size_px := font_size_px opt;
     margin_px := margin_px opt;
     fg_r := fg_r opt; fg_g := fg_g opt; fg_b := fg_b opt;
     bg_r := bg_r opt; bg_g := bg_g opt; bg_b := bg_b opt;
     time_only := time_only opt; debug := debug opt |}.

Definition with_size (opt : options_t) (sz : Q) : options_t :=
  {| font_family := font_family opt; font_size_px := sz;
     margin_px := margin_px opt;
     fg_r := fg_r opt; fg_g := fg_g opt; fg_b := fg_b opt;
     bg_r := bg_r opt; bg_g := bg_g opt; bg_b := bg_b opt;
     time_only := time_only opt; debug := debug opt |}.

Definition with_debug (opt : options_t) (b : bool) : options_t :=
  {| font_family := font_family opt; font_size_px := font_size_px opt;
     margin_px := margin_px opt;
     fg_r := fg_r opt; fg_g := fg_g opt; fg_b := fg_b opt;
     bg_r := bg_r opt; bg_g := bg_g opt; bg_b := bg_b opt;
     time_only := time_only opt; debug := b |}.

Definition with_fg (opt : options_t) (c : Q * Q * Q) : options_t :=
  {| font_family := font_family opt; font_size_px := font_size_px opt;
     margin_px := margin_px opt;
     fg_r := fst (fst c); fg_g := snd (fst c); fg_b := snd c;
     bg_r := bg_r opt; bg_g := bg_g opt; bg_b := bg_b opt;
     time_only := time_only opt; debug := debug opt |}.

Definition with_bg (opt : options_t) (c : Q * Q * Q) : options_t :=
  {| font_family := font_family opt; font_size_px := font_size_px opt;
     margin_px := margin_px opt;
     fg_r := fg_r opt; fg_g := fg_g opt; fg_b := fg_b opt;
     bg_r := fst (fst c); bg_g := snd (fst c); bg_b := snd c;
     time_only := time_only opt; debug := debug opt |}.

(** The [switch (c)] of the loop. *)
Definition option_case (C : libc) (g : getopt_result) (opt : options_t)
  : startup :=
  let c := opt_c g in
  if c =? char_code "h" then Return 0 HelpText
  else if c =? char_code "f" then Proceed (with_font opt (optarg g))
  else if c =? char_code "s" then
    let sz := strtod C (optarg g) in
    Proceed (with_size opt (if Qle_bool sz 0 then 16 else sz))
  else if c =? char_code "m" then
    Proceed (with_margin opt (to_uint32 (strtoul C (optarg g))))
  else if c =? char_code "t" then Proceed (with_time_only opt true)
  else if c =? char_code "d" then Proceed (with_debug opt true)
  else if c =? 1 then
    match parse_rgb_hex (optarg g) with
    | Some rgb => Proceed (with_fg opt rgb)
    | None => Return 2 InvalidFg
    end
  else if c =? 2 then
    match parse_rgb_hex (optarg g) with
    | Some rgb => Proceed (with_bg opt rgb)
    | None => Return 2 InvalidBg
    end
  else Return 2 HelpText.

(** [while ((c = getopt_long(...)) != -1)], on the results [getopt_long]
    gives until it returns -1. *)
Fixpoint parse_options (C : libc) (gs : list getopt_result)
  (opt : options_t) : startup :=
  match gs with
  | [] => Proceed opt
  | g :: rest =>
      match option_case C g opt with
      | Proceed opt' => parse_options C rest opt'
      | Return status printed => Return status printed
      end
  end.

(** An option the loop takes without returning. *)
Definition accepted (g : getopt_result) : bool :=
  let c := opt_c g in
  (c =? char_code "f") || (c =? char_code "s") || (c =? char_code "m")
  || (c =? char_code "t") || (c =? char_code "d")
  || (((c =? 1) || (c =? 2))
      && match parse_rgb_hex (optarg g) with Some _ => true | None => false end).

(** What [main] returns with on an option it does not take. *)
Definition refusal (g : getopt_result) : startup :=
  let c := opt_c g in
  if c =? char_code "h" then Return 0 HelpText
  else if c =? 1 then Return 2 InvalidFg
  else if c =? 2 then Return 2 InvalidBg
  else Return 2 HelpText.

Definition colours_ok (opt : options_t) : Prop :=
  channel_ok (fg_r opt) /\ channel_ok (fg_g opt) /\ channel_ok (fg_b opt) /\
  channel_ok (bg_r opt) /\ channel_ok (bg_g opt) /\ channel_ok (bg_b opt).

(** ** Start-up: the visual, the hints, the first placement *)

Record xcb_visualtype_t := { visual_id : Z; visual_class : Z }.

Record xcb_depth_t := { depth : Z; visuals : list xcb_visualtype_t }.

Record xcb_screen_t := {
  root : Z;
  root_visual : Z;
  width_in_pixels : Z;
  height_in_pixels : Z;
  allowed_depths : list xcb_depth_t
}.

(** The inner loop of [get_visualtype_for_screen], over the visuals of one
    depth. *)
Fixpoint visuals_loop (rv : Z) (vi : list xcb_visualtype_t)
  : option xcb_visualtype_t :=
  match vi with
  | [] => None
  | v :: rest => if visual_id v =? rv then Some v else visuals_loop rv rest
  end.

(** The outer loop, over the depths of the screen. *)
Fixpoint depths_loop (rv : Z) (di : list xcb_depth_t)
  : option xcb_visualtype_t :=
  match di with
  | [] => None
  | d :: rest =>
      match visuals_loop rv (visuals d) with
      | Some v => Some v
      | None => depths_loop rv rest
      end
  end.

(** [get_visualtype_for_screen]: [None] is [NULL]. *)
Definition get_visualtype_for_screen (screen : xcb_screen_t)
  : option xcb_visualtype_t :=
  depths_loop (root_visual screen) (allowed_depths screen).

Definition XCB_ATOM_NONE : Z := 0.
Definition XCB_ATOM_ATOM : Z := 4.
Definition XCB_ATOM_CARDINAL : Z := 6.
Definition XCB_PROP_MODE_REPLACE : Z := 0.

(** [intern_atom], with [server] the reply of the X server to the request
    for a name ([None]: no reply). *)
Definition intern_atom (server : string -> option Z) (name : string) : Z :=
  match server name with
  | Some atom => atom
  | None => XCB_ATOM_NONE
  end.

(** The arguments of one [xcb_change_property]. *)
Record change_property := {
  cp_mode : Z; cp_window : Z; cp_property : Z; cp_type : Z;
  cp_format : Z; cp_data_len : Z; cp_data : list Z
}.

(** [set_evmh_hints]: the property changes it requests, in order. *)
Definition set_evmh_hints (server : string -> option Z) (win : Z)
  : list change_property :=
  let _NET_WM_WINDOW_TYPE := intern_atom server "_NET_WM_WINDOW_TYPE" in
  let _NET_WM_WINDOW_TYPE_DOCK :=
    intern_atom server "_NET_WM_WINDOW_TYPE_DOCK" in
  let _NET_WM_STATE := intern_atom server "_NET_WM_STATE" in
  let _NET_WM_STATE_ABOVE := intern_atom server "_NET_WM_STATE_ABOVE" in
  let _NET_WM_STATE_STICKY := intern_atom server "_NET_WM_STATE_STICKY" in
  let _NET_WM_DESKTOP := intern_atom server "_NET_WM_DESKTOP" in
  (if negb (_NET_WM_WINDOW_TYPE =? XCB_ATOM_NONE)
      && negb (_NET_WM_WINDOW_TYPE_DOCK =? XCB_ATOM_NONE)
   then [{| cp_mode := XCB_PROP_MODE_REPLACE; cp_window := win;
            cp_property := _NET_WM_WINDOW_TYPE; cp_type := XCB_ATOM_ATOM;
            cp_format := 32; cp_data_len := 1;
            cp_data := [_NET_WM_WINDOW_TYPE_DOCK] |}]
   else [])
  ++ (if negb (_NET_WM_STATE =? XCB_ATOM_NONE) then
        let states := [] in
        let states :=
          if negb (_NET_WM_STATE_STICKY =? XCB_ATOM_NONE)
          then (states ++ [_NET_WM_STATE_STICKY])%list else states in
        let states :=
          if negb (_NET_WM_STATE_ABOVE =? XCB_ATOM_NONE)
          then (states ++ [_NET_WM_STATE_ABOVE])%list else states in
        let n := Z.of_nat (List.length states) in
        if 0 <? n
        then [{| cp_mode := XCB_PROP_MODE_REPLACE; cp_window := win;
                 cp_property := _NET_WM_STATE; cp_type := XCB_ATOM_ATOM;
                 cp_format := 32; cp_data_len := n; cp_data := states |}]
        else []
      else [])
  ++ (if negb (_NET_WM_DESKTOP =? XCB_ATOM_NONE)
      then [{| cp_mode := XCB_PROP_MODE_REPLACE; cp_window := win;
               cp_property := _NET_WM_DESKTOP; cp_type := XCB_ATOM_CARDINAL;
               cp_format := 32; cp_data_len := 1;
               cp_data := [4294967295] |}]
      else []).

(** The [x], [y], [width] and [height] [main] passes to
    [xcb_create_window]: [x] is computed in [unsigned int], since
    [margin_px] is a [uint32_t], and both [x] and [y] become [int16_t]
    arguments. *)
Definition create_window_geometry (opt : options_t) (screen : xcb_screen_t)
  : Z * Z * Z * Z :=
  let w := 64 in
  let h := 24 in
  let d := width_in_pixels screen - w in
  let x := to_uint32 (to_uint32 d - margin_px opt) in
  (to_int16 x, to_int16 (margin_px opt), w, h).

(** ** Request kinds *)

Definition is_surface_destroy (r : request) : bool :=
  match r with CairoSurfaceDestroy => true | _ => false end.

Definition is_cairo_create (r : request) : bool :=
  match r with CairoCreate => true | _ => false end.

Definition is_cairo_destroy (r : request) : bool :=
  match r with CairoDestroy => true | _ => false end.

(** Requests that reach the X server or cairo: all but the wait and the
    debug lines. *)
Definition is_output (r : request) : bool :=
  match r with
  | Poll _ | DebugEvent _ _ | DebugTick _ _ _ _ _ _ _ => false
  | _ => true
  end.

Definition has_redraw_event (queue : list xcb_generic_event_t) : bool :=
  existsb (fun ev => wants_redraw (event_rt ev)) queue.

(** A libc for running the command line: every size reads as 18, every
    margin as 10. *)
Definition sample_libc : libc :=
  {| strtod := fun _ => 18%Q; strtoul := fun _ => 10 |}.

(** [--time-only --fg #EAEAEA --margin 10], as [getopt_long] reports it. *)
Definition sample_args : list getopt_result :=
  [{| opt_c := char_code "t"; optarg := "" |};
   {| opt_c := 1; optarg := "#EAEAEA" |};
   {| opt_c := char_code "m"; optarg := "10" |}].

Definition is_margin_option (g : getopt_result) : bool :=
  opt_c g =? char_code "m".

(** A screen with two depths; the root visual is the second visual of
    the second depth. *)
Definition sample_screen : xcb_screen_t :=
  {| root := 1; root_visual := 33; width_in_pixels := 1920;
     height_in_pixels := 1080;
     allowed_depths :=
       [{| depth := 1; visuals := [] |};
        {| depth := 24;
           visuals := [{| visual_id := 32; visual_class := 4 |};
                       {| visual_id := 33; visual_class := 4 |};
                       {| visual_id := 33; visual_class := 5 |}] |}] |}.

(** A server that knows every atom: it answers with the length of the
    name. *)
Definition sample_server (name : string) : option Z :=
  Some (Z.of_nat (String.length name)).

(** What a well-formed property change of [set_evmh_hints] looks like. *)
Definition hint_ok (win : Z) (r : change_property) : Prop :=
  cp_mode r = XCB_PROP_MODE_REPLACE /\ cp_window r = win /\
  cp_property r <> XCB_ATOM_NONE /\ cp_format r = 32 /\
  cp_data_len r = Z.of_nat (List.length (cp_data r)) /\
  0 < cp_data_len r /\
  Forall (fun a => a <> XCB_ATOM_NONE) (cp_data r).

(** A request list creates as many surfaces and contexts as it destroys,
    and configures, creates and flushes equally often. *)
Definition balanced (l : list request) : Prop :=
  count is_surface_create l = count is_surface_destroy l /\
  count is_cairo_create l = count is_cairo_destroy l /\
  count is_configure l = count is_surface_create l /\
  count is_flush l = count is_surface_create l.

(** A left bearing and an ascent far inside [int]. *)
Definition pen_okb (te : cairo_text_extents_t) (fe : cairo_font_extents_t)
  : bool :=
  Qle_bool (- inject_Z (2 ^ 30)) (x_bearing te) &&
  Qle_bool (x_bearing te) (inject_Z (2 ^ 30)) &&
  Qle_bool (- inject_Z (2 ^ 30)) (ascent fe) &&
  Qle_bool (ascent fe) (inject_Z (2 ^ 30)).

(** * Theorems *)

(** ** Sleeping *)

Lemma ms_of_valid (ts : timespec) :
  timespec_valid ts ->
  0 <= Z.quot (tv_nsec ts) 1000000 < 1000 /\
  Z.quot (tv_nsec ts) 1000000 = tv_nsec ts / 1000000.
Proof.
  unfold timespec_valid. intros H.
  rewrite Z.quot_div_nonneg by lia.
  split; [split|reflexivity].
  - apply Z.div_pos; lia.
  - apply Z.div_lt_upper_bound; lia.
Qed.

Lemma nowMillis_mod (ts : timespec) :
  timespec_valid ts ->
  nowMillis ts mod 1000 = tv_nsec ts / 1000000.
Proof.
  intros H. destruct (ms_of_valid ts H) as [Hr He].
  unfold nowMillis. rewrite He in Hr.
  rewrite Z.add_comm, Z.mod_add by lia.
  apply Z.mod_small; lia.
Qed.

(** C1. For every instant the clock can report, the wait returned by
    [ms_to_next_second] lies in [0, 999]; the instant (in whole
    milliseconds, the spec's [nowMillis]) plus the wait is a multiple of
    1000, a second boundary; and the wait is [1000 - nowMillis mod 1000],
    replaced by 0 when the instant is on a boundary. *)
Theorem ms_to_next_second_boundary (ts : timespec) :
  timespec_valid ts ->
  0 <= ms_to_next_second ts <= 999 /\
  (nowMillis ts + ms_to_next_second ts) mod 1000 = 0 /\
  ms_to_next_second ts =
    (if nowMillis ts mod 1000 =? 0 then 0 else 1000 - nowMillis ts mod 1000).
Proof.
  intros H.
  pose proof (nowMillis_mod ts H) as Hm.
  destruct (ms_of_valid ts H) as [Hr He].
  assert (Hrem : Z.rem (Z.quot (tv_nsec ts) 1000000) 1000
                 = nowMillis ts mod 1000).
  { rewrite Z.rem_mod_nonneg by lia. rewrite He, Hm.
    apply Z.mod_small. lia. }
  unfold ms_to_next_second. cbv zeta. rewrite Hrem.
  rewrite Hm in *. rewrite He in Hr.
  set (ms := tv_nsec ts / 1000000) in *.
  assert (Hnm : nowMillis ts = tv_sec ts * 1000 + ms) by reflexivity.
  destruct (Z.eqb_spec (1000 - ms) 1000) as [E|E];
    destruct (Z.eqb_spec ms 0) as [E0|E0]; try lia.
  - repeat split; try lia.
    rewrite Hnm, E0, Z.add_0_r, Z.add_0_r. apply Z.mod_mul. lia.
  - repeat split; try lia.
    replace (nowMillis ts + (1000 - ms)) with ((tv_sec ts + 1) * 1000)
      by (rewrite Hnm; ring).
    apply Z.mod_mul. lia.
Qed.

Lemma ms_to_next_second_boundary_witness :
  let ts := {| tv_sec := 1705309503; tv_nsec := 250000000 |} in
  timespec_valid ts /\
  (0 <= ms_to_next_second ts <= 999 /\
   (nowMillis ts + ms_to_next_second ts) mod 1000 = 0 /\
   ms_to_next_second ts =
     (if nowMillis ts mod 1000 =? 0 then 0
      else 1000 - nowMillis ts mod 1000)).
Proof.
  intros ts.
  assert (H : timespec_valid ts) by (unfold timespec_valid; simpl; lia).
  split; [exact H | exact (ms_to_next_second_boundary ts H)].
Defined.

(** On a boundary the wait is 0, one millisecond before it is 1, one
    millisecond after it is 999. *)
Example ms_to_next_second_samples :
  ms_to_next_second {| tv_sec := 7; tv_nsec := 0 |} = 0 /\
  ms_to_next_second {| tv_sec := 7; tv_nsec := 999000000 |} = 1 /\
  ms_to_next_second {| tv_sec := 7; tv_nsec := 1000000 |} = 999.
Proof. repeat split. Qed.

(** ** Time formatter *)

Lemma range_all_spec (lo len : Z) (f : Z -> bool) :
  range_all lo len f = true ->
  forall n, lo <= n < lo + len -> f n = true.
Proof.
  unfold range_all. intros H n Hn.
  rewrite forallb_forall in H.
  specialize (H (Z.to_nat (n - lo))).
  replace (lo + Z.of_nat (Z.to_nat (n - lo))) with n in H by lia.
  apply H. apply in_seq. lia.
Qed.

Lemma dec2_two_digits (n : Z) :
  0 <= n < 100 -> dec2 n = two_digits n.
Proof.
  intros Hn. apply String.eqb_eq.
  apply (range_all_spec 0 100 (fun k => String.eqb (dec2 k) (two_digits k)));
    [vm_compute; reflexivity | lia].
Qed.

Lemma dec_four_digits (n : Z) :
  1000 <= n <= 9999 -> dec n = four_digits n.
Proof.
  intros Hn. apply String.eqb_eq.
  apply (range_all_spec 1000 9000
           (fun k => String.eqb (dec k) (four_digits k)));
    [vm_compute; reflexivity | lia].
Qed.

Lemma tm_validb_spec (lt : tm) :
  tm_validb lt = true ->
  0 <= tm_sec lt < 100 /\ 0 <= tm_min lt < 100 /\ 0 <= tm_hour lt < 100 /\
  0 <= tm_mday lt < 100 /\ 0 <= tm_mon lt + 1 < 100 /\
  1000 <= tm_year lt + 1900 <= 9999.
Proof.
  unfold tm_validb. intros H.
  repeat (apply andb_prop in H; destruct H as [H ?]).
  lia.
Qed.

(** The two outputs of [strftime] on a valid broken-down time. *)
Lemma strftime_time_only (lt : tm) :
  tm_validb lt = true ->
  strftime 64 "%H:%M:%S" lt
  = Some (two_digits (tm_hour lt) ++ ":" ++ two_digits (tm_min lt) ++ ":"
          ++ two_digits (tm_sec lt))%string.
Proof.
  intros H. apply tm_validb_spec in H.
  unfold strftime. cbn [expand conversion Ascii.eqb Bool.eqb bind].
  rewrite !dec2_two_digits by lia. reflexivity.
Qed.

Lemma strftime_date_time (lt : tm) :
  tm_validb lt = true ->
  strftime 64 "%Y-%m-%d %H:%M:%S" lt
  = Some (four_digits (tm_year lt + 1900) ++ "-"
          ++ two_digits (tm_mon lt + 1) ++ "-" ++ two_digits (tm_mday lt)
          ++ " " ++ two_digits (tm_hour lt) ++ ":" ++ two_digits (tm_min lt)
          ++ ":" ++ two_digits (tm_sec lt))%string.
Proof.
  intros H. apply tm_validb_spec in H.
  unfold strftime. cbn [expand conversion Ascii.eqb Bool.eqb bind].
  rewrite !dec2_two_digits, dec_four_digits by lia. reflexivity.
Qed.

(** C6. The formatter yields [HH:MM:SS] for the local time of the instant
    when [time_only] is set and [YYYY-MM-DD HH:MM:SS] otherwise; on the
    local instant 2024-01-15T09:05:03 these are exactly
    "2024-01-15 09:05:03" and "09:05:03". *)
Theorem now_timestr_format (L : libs) (t : Z) :
  tm_validb (localtime_r L t) = true ->
  let lt := localtime_r L t in
  now_timestr L t 64 true
  = Some (two_digits (tm_hour lt) ++ ":" ++ two_digits (tm_min lt) ++ ":"
          ++ two_digits (tm_sec lt))%string /\
  now_timestr L t 64 false
  = Some (four_digits (tm_year lt + 1900) ++ "-"
          ++ two_digits (tm_mon lt + 1) ++ "-" ++ two_digits (tm_mday lt)
          ++ " " ++ two_digits (tm_hour lt) ++ ":" ++ two_digits (tm_min lt)
          ++ ":" ++ two_digits (tm_sec lt))%string /\
  (lt = instant_2024_01_15 ->
   now_timestr L t 64 false = Some "2024-01-15 09:05:03"%string /\
   now_timestr L t 64 true = Some "09:05:03"%string).
Proof.
  intros H lt. unfold now_timestr. fold lt.
  rewrite (strftime_time_only lt H), (strftime_date_time lt H).
  split; [reflexivity | split; [reflexivity |]].
  intros ->. split; reflexivity.
Qed.

Lemma now_timestr_format_witness :
  let L := fixed_pitch 15 14 4 in
  let t := 1705309503 in
  tm_validb (localtime_r L t) = true /\
  localtime_r L t = instant_2024_01_15 /\
  now_timestr L t 64 false = Some "2024-01-15 09:05:03"%string /\
  now_timestr L t 64 true = Some "09:05:03"%string.
Proof.
  intros L t.
  assert (Hv : tm_validb (localtime_r L t) = true) by reflexivity.
  assert (Hi : localtime_r L t = instant_2024_01_15) by reflexivity.
  destruct (now_timestr_format L t Hv) as [_ [_ Hex]].
  split; [exact Hv | split; [exact Hi | exact (Hex Hi)]].
Defined.

(** ** Machine integers *)

Lemma in_int_iff (z : Z) :
  in_int z = true <-> -2147483648 <= z <= 2147483647.
Proof.
  unfold in_int, INT_MIN, INT_MAX. change (2 ^ 31) with 2147483648.
  rewrite andb_true_iff, !Z.leb_le. lia.
Qed.

Lemma to_uint16_eq (z : Z) : to_uint16 z = z mod 65536.
Proof. reflexivity. Qed.

Lemma to_uint16_range (z : Z) : 0 <= to_uint16 z < 65536.
Proof. rewrite to_uint16_eq. apply Z.mod_pos_bound. lia. Qed.

Lemma to_uint32_small (z : Z) : 0 <= z < 4294967296 -> to_uint32 z = z.
Proof. intros H. apply Z.mod_small. exact H. Qed.

Lemma to_int16_small (z : Z) : -32768 <= z <= 32767 -> to_int16 z = z.
Proof.
  intros H. unfold to_int16, to_signed.
  change (2 ^ (16 - 1)) with 32768. change (2 ^ 16) with 65536.
  rewrite Z.mod_small; lia.
Qed.

Lemma to_int32_small (z : Z) :
  -2147483648 <= z <= 2147483647 -> to_int32 z = z.
Proof.
  intros H. unfold to_int32, to_signed.
  change (2 ^ (32 - 1)) with 2147483648. change (2 ^ 32) with 4294967296.
  rewrite Z.mod_small; lia.
Qed.

Lemma int_add_in (a b : Z) :
  -2147483648 <= a + b <= 2147483647 -> int_add a b = Some (a + b).
Proof.
  intros H. unfold int_add. apply in_int_iff in H. rewrite H. reflexivity.
Qed.

Lemma int_sub_in (a b : Z) :
  -2147483648 <= a - b <= 2147483647 -> int_sub a b = Some (a - b).
Proof.
  intros H. unfold int_sub. apply in_int_iff in H. rewrite H. reflexivity.
Qed.

Lemma int_mul_in (a b : Z) :
  -2147483648 <= a * b <= 2147483647 -> int_mul a b = Some (a * b).
Proof.
  intros H. unfold int_mul. apply in_int_iff in H. rewrite H. reflexivity.
Qed.

(** On a double that is not negative the cast to [int] is the floor. *)
Lemma Qtrunc_nonneg (q : Q) : (0 <= q)%Q -> Qtrunc q = Qfloor q.
Proof.
  destruct q as [n d]. unfold Qle, Qtrunc, Qfloor. simpl. intros H.
  apply Z.quot_div_nonneg; lia.
Qed.

Lemma round_half_up_bounds (q : Q) :
  (0 <= q)%Q -> (q <= inject_Z (2 ^ 30))%Q ->
  0 <= round_half_up q <= 2 ^ 30.
Proof.
  intros H0 H1. unfold round_half_up. split.
  - change 0 with (Qfloor 0). apply Qfloor_resp_le.
    apply Qle_trans with q; [exact H0|].
    rewrite <- (Qplus_0_r q) at 1. apply Qplus_le_r. discriminate.
  - change (2 ^ 30) with (Qfloor (inject_Z (2 ^ 30) + half)).
    apply Qfloor_resp_le. apply Qplus_le_l. exact H1.
Qed.

(** ** Arithmetic on [double] *)

Module Binary64.

Local Open Scope Q_scope.

Lemma p2_pos (e : Z) : 0 < p2 e.
Proof. apply Qpower_0_lt. reflexivity. Qed.

Lemma p2_add (a b : Z) : p2 (a + b) == p2 a * p2 b.
Proof. apply Qpower_plus. discriminate. Qed.

Lemma p2_le (a b : Z) : (a <= b)%Z -> p2 a <= p2 b.
Proof. intros H. apply Qpower_le_compat_l; [exact H | discriminate]. Qed.

Lemma p2_lt (a b : Z) : (a < b)%Z -> p2 a < p2 b.
Proof. intros H. apply Qpower_lt_compat_l; [exact H | reflexivity]. Qed.

Lemma p2_lt_inv (a b : Z) : p2 a < p2 b -> (a < b)%Z.
Proof. intros H. apply (Qpower_lt_compat_l_inv 2); [exact H | reflexivity]. Qed.

Lemma p2_Z (e : Z) : (0 <= e)%Z -> p2 e == inject_Z (2 ^ e).
Proof. intros H. unfold p2. rewrite (Zpower_Qpower 2 e H). reflexivity. Qed.

Lemma p2_succ (e : Z) : p2 (e + 1) == 2 * p2 e.
Proof. rewrite p2_add. change (p2 1) with 2. ring. Qed.

(** Scaling by a positive number. *)
Lemma div_mul (q g : Q) : 0 < g -> q / g * g == q.
Proof. intros H. field. intros E. rewrite E in H. discriminate H. Qed.

Lemma le_div (x q g : Q) : 0 < g -> (x <= q / g <-> x * g <= q).
Proof.
  intros H. rewrite <- (Qmult_le_r x (q / g) g H), (div_mul q g H). tauto.
Qed.

Lemma div_le (x q g : Q) : 0 < g -> (q / g <= x <-> q <= x * g).
Proof.
  intros H. rewrite <- (Qmult_le_r (q / g) x g H), (div_mul q g H). tauto.
Qed.

Lemma div_lt (x q g : Q) : 0 < g -> (q / g < x <-> q < x * g).
Proof.
  intros H. rewrite <- (Qmult_lt_r (q / g) x g H), (div_mul q g H). tauto.
Qed.

Lemma ilog2_spec (q : Q) :
  0 < q -> p2 (ilog2 q) <= q /\ q < p2 (ilog2 q + 1).
Proof.
  intros Hq. destruct q as [n d]. unfold ilog2. cbn [Qnum Qden].
  assert (Hn : (0 < n)%Z) by (unfold Qlt in Hq; cbn in Hq; lia).
  set (ln := Z.log2 n). set (ld := Z.log2 (Z.pos d)).
  destruct (Z.log2_spec n Hn) as [N1 N2]. fold ln in N1, N2.
  destruct (Z.log2_spec (Z.pos d) (Pos2Z.is_pos d)) as [D1 D2].
  fold ld in D1, D2.
  assert (Hln : (0 <= ln)%Z) by apply Z.log2_nonneg.
  assert (Hld : (0 <= ld)%Z) by apply Z.log2_nonneg.
  assert (Hd : 0 < inject_Z (Z.pos d)) by reflexivity.
  assert (Eq : (n # d) * inject_Z (Z.pos d) == inject_Z n).
  { rewrite (Qmake_Qdiv n d). apply div_mul. exact Hd. }
  assert (QN1 : p2 ln <= inject_Z n)
    by (rewrite p2_Z by lia; rewrite <- Zle_Qle; exact N1).
  assert (QN2 : inject_Z n < p2 (ln + 1))
    by (rewrite p2_Z by lia; rewrite <- Zlt_Qlt; lia).
  assert (QD1 : p2 ld <= inject_Z (Z.pos d))
    by (rewrite p2_Z by lia; rewrite <- Zle_Qle; exact D1).
  assert (QD2 : inject_Z (Z.pos d) < p2 (ld + 1))
    by (rewrite p2_Z by lia; rewrite <- Zlt_Qlt; lia).
  assert (Up : (n # d) < p2 (ln - ld + 1)).
  { apply (Qmult_lt_r _ _ (inject_Z (Z.pos d)) Hd). rewrite Eq.
    apply Qlt_le_trans with (p2 (ln + 1)); [exact QN2|].
    replace (ln + 1)%Z with ((ln - ld + 1) + ld)%Z by ring.
    rewrite p2_add. apply Qmult_le_l; [apply p2_pos | exact QD1]. }
  assert (Lo : p2 (ln - ld - 1) < (n # d)).
  { apply (Qmult_lt_r _ _ (inject_Z (Z.pos d)) Hd). rewrite Eq.
    apply Qlt_le_trans with (p2 ln); [|exact QN1].
    replace ln with ((ln - ld - 1) + (ld + 1))%Z at 2 by ring.
    rewrite p2_add. apply Qmult_lt_l; [apply p2_pos | exact QD2]. }
  destruct (Qle_bool (p2 (ln - ld)) (n # d)) eqn:E.
  - apply Qle_bool_iff in E. split; assumption.
  - split; [apply Qlt_le_weak; exact Lo|].
    replace (ln - ld - 1 + 1)%Z with (ln - ld)%Z by ring.
    apply Qnot_le_lt. intros H. apply Qle_bool_iff in H. congruence.
Qed.

Lemma ilog2_unique (q : Q) (j : Z) :
  p2 j <= q -> q < p2 (j + 1) -> ilog2 q = j.
Proof.
  intros L U.
  assert (Hq : 0 < q) by (apply Qlt_le_trans with (p2 j); [apply p2_pos | exact L]).
  destruct (ilog2_spec q Hq) as [L' U'].
  assert (A : (ilog2 q < j + 1)%Z)
    by (apply p2_lt_inv; apply Qle_lt_trans with q; assumption).
  assert (B : (j < ilog2 q + 1)%Z)
    by (apply p2_lt_inv; apply Qle_lt_trans with q; assumption).
  lia.
Qed.

(** Nearest integer, ties to even. *)
Lemma rne_cases (x : Q) :
  let f := Qfloor x in
  (x - inject_Z f < 1 # 2 /\ rne x = f) \/
  (1 # 2 < x - inject_Z f /\ rne x = (f + 1)%Z) \/
  (x - inject_Z f == 1 # 2 /\ rne x = if Z.even f then f else (f + 1)%Z).
Proof.
  intros f. unfold rne. fold f.
  destruct (Qcompare_spec (x - inject_Z f) (1 # 2)) as [E|L|G]; auto.
Qed.

Lemma floor_frac (x : Q) :
  0 <= x - inject_Z (Qfloor x) /\ x - inject_Z (Qfloor x) < 1.
Proof.
  pose proof (Qfloor_le x) as L. pose proof (Qlt_floor x) as U.
  rewrite inject_Z_plus in U. change (inject_Z 1) with 1 in U.
  split; lra.
Qed.

Lemma rne_floor (x : Q) : (Qfloor x <= rne x <= Qfloor x + 1)%Z.
Proof.
  destruct (rne_cases x) as [[_ ->]|[[_ ->]|[_ ->]]]; try lia.
  destruct (Z.even (Qfloor x)); lia.
Qed.

Lemma rne_Z (z : Z) : rne (inject_Z z) = z.
Proof.
  destruct (rne_cases (inject_Z z)) as [[_ H]|[[H _]|[H _]]];
    rewrite Qfloor_Z in *; [exact H | lra | lra].
Qed.

Lemma rne_comp (x y : Q) : x == y -> rne x = rne y.
Proof.
  intros E. unfold rne. rewrite (Qfloor_comp x y E).
  assert (E' : x - inject_Z (Qfloor y) == y - inject_Z (Qfloor y))
    by (rewrite E; reflexivity).
  rewrite (Qcompare_comp _ _ E' (1 # 2) (1 # 2) (Qeq_refl _)). reflexivity.
Qed.

Lemma rne_ge_Z (x : Q) (z : Z) : inject_Z z <= x -> (z <= rne x)%Z.
Proof.
  intros H. pose proof (Qfloor_resp_le _ _ H) as F. rewrite Qfloor_Z in F.
  pose proof (rne_floor x). lia.
Qed.

Lemma rne_le_Z (x : Q) (z : Z) : x <= inject_Z z -> (rne x <= z)%Z.
Proof.
  intros H. destruct (Qlt_le_dec x (inject_Z z)) as [L|G].
  - assert (F : (Qfloor x < z)%Z).
    { rewrite Zlt_Qlt. apply Qle_lt_trans with x; [apply Qfloor_le | exact L]. }
    pose proof (rne_floor x). lia.
  - rewrite (rne_comp x (inject_Z z)) by (apply Qle_antisym; assumption).
    rewrite rne_Z. lia.
Qed.

Lemma rne_mono (x y : Q) : x <= y -> (rne x <= rne y)%Z.
Proof.
  intros H. pose proof (Qfloor_resp_le _ _ H) as F.
  pose proof (rne_floor x) as Bx. pose proof (rne_floor y) as By.
  destruct (Z.eq_dec (Qfloor x) (Qfloor y)) as [E|N]; [|lia].
  destruct (rne_cases x) as [[Cx Rx]|[[Cx Rx]|[Cx Rx]]];
    destruct (rne_cases y) as [[Cy Ry]|[[Cy Ry]|[Cy Ry]]];
    rewrite E in *; rewrite Rx, Ry; try lia; try lra;
    destruct (Z.even (Qfloor y)); lia || lra.
Qed.

Lemma rne_err (x : Q) :
  - (1 # 2) <= inject_Z (rne x) - x /\ inject_Z (rne x) - x <= 1 # 2.
Proof.
  pose proof (floor_frac x) as [F0 F1].
  destruct (rne_cases x) as [[C R]|[[C R]|[C R]]]; rewrite R.
  - split; lra.
  - rewrite inject_Z_plus. change (inject_Z 1) with 1. split; lra.
  - destruct (Z.even (Qfloor x)).
    + split; lra.
    + rewrite inject_Z_plus. change (inject_Z 1) with 1. split; lra.
Qed.

(** Rounding of a positive number, binade by binade. *)
Lemma round64_pos (q : Q) : 0 < q -> round64 q == round_pos q.
Proof.
  intros H. unfold round64.
  destruct (Qcompare_spec q 0) as [E|L|G].
  - rewrite E in H. discriminate H.
  - exfalso. apply (Qlt_irrefl 0). apply Qlt_trans with q; assumption.
  - apply Qred_correct.
Qed.

Lemma round64_0 : round64 0 = 0.
Proof. reflexivity. Qed.

Lemma round_pos_bin (q : Q) (j : Z) :
  p2 j <= q -> q < p2 (j + 1) ->
  round_pos q = inject_Z (rne (q / p2 (j - 52))) * p2 (j - 52).
Proof.
  intros L U. unfold round_pos, ulp. rewrite (ilog2_unique q j L U).
  reflexivity.
Qed.

Lemma p2_52 (j : Z) : p2 j == inject_Z (2 ^ 52) * p2 (j - 52).
Proof.
  rewrite <- (p2_Z 52) by lia. rewrite <- p2_add.
  replace (52 + (j - 52))%Z with j by ring. reflexivity.
Qed.

Lemma p2_53 (j : Z) : p2 (j + 1) == inject_Z (2 ^ 53) * p2 (j - 52).
Proof.
  rewrite <- (p2_Z 53) by lia. rewrite <- p2_add.
  replace (53 + (j - 52))%Z with (j + 1)%Z by ring. reflexivity.
Qed.

Lemma scaled_range (q : Q) (j : Z) :
  p2 j <= q -> q < p2 (j + 1) ->
  inject_Z (2 ^ 52) <= q / p2 (j - 52) /\
  q / p2 (j - 52) < inject_Z (2 ^ 53).
Proof.
  intros L U. pose proof (p2_pos (j - 52)) as G. split.
  - apply le_div; [exact G|]. rewrite <- p2_52. exact L.
  - apply div_lt; [exact G|]. rewrite <- p2_53. exact U.
Qed.

Lemma round_pos_range (q : Q) (j : Z) :
  p2 j <= q -> q < p2 (j + 1) ->
  p2 j <= round_pos q /\ round_pos q <= p2 (j + 1).
Proof.
  intros L U. rewrite (round_pos_bin q j L U).
  destruct (scaled_range q j L U) as [A B].
  pose proof (p2_pos (j - 52)) as G.
  pose proof (rne_ge_Z _ _ A) as A'.
  pose proof (rne_le_Z _ _ (Qlt_le_weak _ _ B)) as B'.
  split.
  - rewrite (p2_52 j). apply Qmult_le_r; [exact G|].
    rewrite <- Zle_Qle. exact A'.
  - rewrite (p2_53 j). apply Qmult_le_r; [exact G|].
    rewrite <- Zle_Qle. exact B'.
Qed.

Lemma round_pos_mono (p q : Q) : 0 < p -> p <= q -> round_pos p <= round_pos q.
Proof.
  intros Hp Hpq.
  assert (Hq : 0 < q) by (apply Qlt_le_trans with p; assumption).
  destruct (ilog2_spec p Hp) as [Lp Up].
  destruct (ilog2_spec q Hq) as [Lq Uq].
  set (i := ilog2 p) in *. set (j := ilog2 q) in *.
  assert (Hij : (i < j + 1)%Z).
  { apply p2_lt_inv. apply Qle_lt_trans with p; [exact Lp|].
    apply Qle_lt_trans with q; assumption. }
  destruct (Z.eq_dec i j) as [E|N].
  - rewrite (round_pos_bin p i Lp Up), (round_pos_bin q j Lq Uq), E.
    apply Qmult_le_r; [apply p2_pos|].
    rewrite <- Zle_Qle. apply rne_mono.
    apply le_div; [apply p2_pos|]. rewrite div_mul by apply p2_pos.
    exact Hpq.
  - destruct (round_pos_range p i Lp Up) as [_ A].
    destruct (round_pos_range q j Lq Uq) as [B _].
    apply Qle_trans with (p2 (i + 1)); [exact A|].
    apply Qle_trans with (p2 j); [apply p2_le; lia | exact B].
Qed.

Lemma round64_nonneg (q : Q) : 0 <= q -> 0 <= round64 q.
Proof.
  intros H. destruct (Qlt_le_dec 0 q) as [P|Z].
  - rewrite (round64_pos q P).
    destruct (ilog2_spec q P) as [L U].
    destruct (round_pos_range q _ L U) as [A _].
    apply Qle_trans with (p2 (ilog2 q)); [|exact A].
    apply Qlt_le_weak. apply p2_pos.
  - assert (E : q == 0) by (apply Qle_antisym; assumption).
    unfold round64. apply Qeq_alt in E. rewrite E. apply Qle_refl.
Qed.

Lemma round64_mono (p q : Q) : 0 <= p -> p <= q -> round64 p <= round64 q.
Proof.
  intros Hp Hpq. destruct (Qlt_le_dec 0 p) as [P|Z].
  - assert (Hq : 0 < q) by (apply Qlt_le_trans with p; assumption).
    rewrite (round64_pos p P), (round64_pos q Hq).
    apply round_pos_mono; assumption.
  - assert (E : p == 0) by (apply Qle_antisym; assumption).
    unfold round64 at 1. apply Qeq_alt in E. rewrite E.
    apply round64_nonneg. apply Qle_trans with p; assumption.
Qed.

(** A number with at most 53 significant bits is its own rounding. *)
Lemma round64_fix (q : Q) (j M : Z) :
  p2 j <= q -> q < p2 (j + 1) -> q == inject_Z M * p2 (j - 52) ->
  round64 q == q.
Proof.
  intros L U E.
  assert (Hq : 0 < q) by (apply Qlt_le_trans with (p2 j); [apply p2_pos | exact L]).
  rewrite (round64_pos q Hq), (round_pos_bin q j L U).
  assert (X : q / p2 (j - 52) == inject_Z M).
  { rewrite E. field. intros Z. pose proof (p2_pos (j - 52)) as G.
    rewrite Z in G. discriminate G. }
  rewrite (rne_comp _ _ X), rne_Z. symmetry. exact E.
Qed.

Lemma round64_Z (z : Z) : (0 <= z < 2 ^ 53)%Z -> round64 (inject_Z z) == inject_Z z.
Proof.
  intros [H0 H1]. destruct (Z.eq_dec z 0) as [->|N]; [reflexivity|].
  assert (Hz : (0 < z)%Z) by lia.
  destruct (Z.log2_spec z Hz) as [L U]. set (j := Z.log2 z) in *.
  assert (Hj : (0 <= j)%Z) by apply Z.log2_nonneg.
  assert (Hj52 : (j <= 52)%Z).
  { assert (j < 53)%Z; [|lia]. apply (Z.pow_lt_mono_r_iff 2); lia. }
  apply (round64_fix _ j (z * 2 ^ (52 - j))).
  - rewrite p2_Z by lia. rewrite <- Zle_Qle. exact L.
  - rewrite p2_Z by lia. rewrite <- Zlt_Qlt.
    replace (j + 1)%Z with (Z.succ j) by lia. exact U.
  - rewrite inject_Z_mult. rewrite <- (p2_Z (52 - j)) by lia.
    rewrite <- Qmult_assoc, <- p2_add.
    replace (52 - j + (j - 52))%Z with 0%Z by ring.
    change (p2 0) with 1. ring.
Qed.

Lemma int_scaled (z j : Z) :
  (j <= 52)%Z -> inject_Z z == inject_Z (z * 2 ^ (52 - j)) * p2 (j - 52).
Proof.
  intros H. rewrite inject_Z_mult. rewrite <- (p2_Z (52 - j)) by lia.
  rewrite <- Qmult_assoc, <- p2_add.
  replace (52 - j + (j - 52))%Z with 0%Z by ring.
  change (p2 0) with 1. ring.
Qed.

Lemma half_scaled (j : Z) :
  (j <= 51)%Z -> (1 # 2) == inject_Z (2 ^ (51 - j)) * p2 (j - 52).
Proof.
  intros H. rewrite <- (p2_Z (51 - j)) by lia. rewrite <- p2_add.
  replace (51 - j + (j - 52))%Z with (-1)%Z by ring. reflexivity.
Qed.

(** What [round64] returns is a double. *)
Lemma round64_idem (q : Q) : 0 <= q -> round64 (round64 q) == round64 q.
Proof.
  intros H. destruct (Qlt_le_dec 0 q) as [P|Z].
  - destruct (ilog2_spec q P) as [L U]. set (j := ilog2 q) in *.
    pose proof (round64_pos q P) as E.
    rewrite (round_pos_bin q j L U) in E.
    destruct (scaled_range q j L U) as [A B].
    pose proof (rne_ge_Z _ _ A) as A'.
    pose proof (rne_le_Z _ _ (Qlt_le_weak _ _ B)) as B'.
    set (m := rne (q / p2 (j - 52))) in *.
    pose proof (p2_pos (j - 52)) as G.
    destruct (Z.eq_dec m (2 ^ 53)) as [E53|N53].
    + apply (round64_fix _ (j + 1) (2 ^ 52)).
      * rewrite E, E53, <- p2_53. apply Qle_refl.
      * rewrite E, E53, <- p2_53. apply p2_lt. lia.
      * rewrite E, E53, <- p2_53.
        replace (j + 1 - 52)%Z with ((j + 1) - 52)%Z by ring.
        apply p2_52.
    + apply (round64_fix _ j m).
      * rewrite E, (p2_52 j). apply Qmult_le_r; [exact G|].
        rewrite <- Zle_Qle. exact A'.
      * rewrite E, (p2_53 j). apply Qmult_lt_r; [exact G|].
        rewrite <- Zlt_Qlt. lia.
      * exact E.
  - assert (E : q == 0) by (apply Qle_antisym; assumption).
    unfold round64 at 2 3. apply Qeq_alt in E. rewrite E. reflexivity.
Qed.

Lemma is_double_round64 (q : Q) : 0 <= q -> is_double (round64 q) = true.
Proof. intros H. apply Qeq_bool_iff. apply round64_idem. exact H. Qed.

Lemma is_double_scaled (a : Q) (j : Z) :
  is_double a = true -> p2 j <= a -> a < p2 (j + 1) ->
  a == inject_Z (rne (a / p2 (j - 52))) * p2 (j - 52).
Proof.
  intros D L U. apply Qeq_bool_iff in D.
  assert (Ha : 0 < a) by (apply Qlt_le_trans with (p2 j); [apply p2_pos | exact L]).
  rewrite <- D at 1. rewrite (round64_pos a Ha), (round_pos_bin a j L U).
  reflexivity.
Qed.

(** Bracketing by the neighbouring integers. *)
Lemma round64_le_Z (x : Q) (z : Z) :
  0 <= x -> x <= inject_Z z -> (z < 2 ^ 53)%Z -> round64 x <= inject_Z z.
Proof.
  intros H0 H Hz.
  assert (Z0 : (0 <= z)%Z) by (rewrite Zle_Qle; apply Qle_trans with x; assumption).
  rewrite <- (round64_Z z) by lia. apply round64_mono; assumption.
Qed.

Lemma round64_ge_Z (x : Q) (z : Z) :
  (0 <= z < 2 ^ 53)%Z -> inject_Z z <= x -> inject_Z z <= round64 x.
Proof.
  intros Hz H. rewrite <- (round64_Z z) at 1 by lia.
  apply round64_mono; [|exact H].
  change 0 with (inject_Z 0). rewrite <- Zle_Qle. lia.
Qed.

Lemma floor_round64 (x : Q) :
  0 <= x -> x <= inject_Z (2 ^ 31) ->
  (Qfloor x <= Qfloor (round64 x) <= Qfloor x + 1)%Z.
Proof.
  intros H0 H1.
  pose proof (Qfloor_le x) as Fl. pose proof (Qlt_floor x) as Fu.
  assert (F0 : (0 <= Qfloor x)%Z).
  { change 0%Z with (Qfloor 0). apply Qfloor_resp_le. exact H0. }
  assert (F1 : (Qfloor x <= 2 ^ 31)%Z).
  { rewrite <- (Qfloor_Z (2 ^ 31)). apply Qfloor_resp_le. exact H1. }
  assert (P : (2 ^ 31 + 1 < 2 ^ 53)%Z) by reflexivity.
  split.
  - rewrite <- (Qfloor_Z (Qfloor x)) at 1. apply Qfloor_resp_le.
    apply round64_ge_Z; [lia | exact Fl].
  - rewrite <- (Qfloor_Z (Qfloor x + 1)). apply Qfloor_resp_le.
    apply round64_le_Z; [exact H0 | apply Qlt_le_weak; exact Fu | lia].
Qed.

Lemma scaled_pred (K : Z) (g : Q) :
  inject_Z K * g - g == inject_Z (K - 1) * g.
Proof.
  replace (K - 1)%Z with (K + - (1))%Z by ring.
  rewrite inject_Z_plus, inject_Z_opp. change (inject_Z 1) with 1. ring.
Qed.

(** Adding one half to a double that is at least one half and rounding
    does not reach the next integer. *)
Lemma floor_round64_half (a : Q) :
  is_double a = true -> (1 # 2) <= a -> a <= inject_Z (2 ^ 30) ->
  Qfloor (round64 (a + (1 # 2))) = Qfloor (a + (1 # 2)).
Proof.
  intros D Ha Hb.
  set (s := a + (1 # 2)). set (n := Qfloor s).
  pose proof (Qfloor_le s) as Fl. pose proof (Qlt_floor s) as Fu.
  fold n in Fl, Fu. rewrite inject_Z_plus in Fu.
  change (inject_Z 1) with 1 in Fu.
  assert (Hs1 : 1 <= s) by (unfold s; lra).
  assert (Hs0 : 0 <= s) by lra.
  assert (Hsu : s <= inject_Z (2 ^ 31)).
  { unfold s. apply Qle_trans with (inject_Z (2 ^ 30) + (1 # 2)); [lra|].
    discriminate. }
  assert (N1 : (1 <= n)%Z).
  { change 1%Z with (Qfloor 1). apply Qfloor_resp_le. exact Hs1. }
  assert (N2 : (n <= 2 ^ 31)%Z).
  { rewrite <- (Qfloor_Z (2 ^ 31)). apply Qfloor_resp_le. exact Hsu. }
  destruct (floor_round64 s Hs0 Hsu) as [Lo _]. fold n in Lo.
  apply Z.le_antisymm; [|exact Lo].
  assert (Ps : 0 < s) by lra.
  destruct (ilog2_spec s Ps) as [L U]. set (j := ilog2 s) in *.
  assert (J0 : (0 <= j)%Z).
  { assert (0 < j + 1)%Z; [|lia]. apply p2_lt_inv.
    apply Qle_lt_trans with s; [exact Hs1 | exact U]. }
  assert (J1 : (j < 31)%Z).
  { apply p2_lt_inv. apply Qle_lt_trans with s; [exact L|].
    apply Qle_lt_trans with (inject_Z (2 ^ 30) + (1 # 2));
      [unfold s; lra | reflexivity]. }
  pose proof (p2_pos (j - 52)) as G. set (g := p2 (j - 52)) in *.
  assert (Gh : g <= 1 # 2).
  { change (1 # 2) with (p2 (-1)). apply p2_le. lia. }
  (* the rounded sum is at most n + 1 - g *)
  assert (Key : s <= inject_Z (n + 1) - g).
  { destruct (Qlt_le_dec a (p2 j)) as [Low|Same].
    - (* the sum has crossed into the binade of 2^j *)
      assert (Pj : p2 j == inject_Z (2 ^ j)) by (apply p2_Z; lia).
      assert (Nj : (n <= 2 ^ j)%Z).
      { assert (n < 2 ^ j + 1)%Z; [|lia]. rewrite Zlt_Qlt.
        rewrite inject_Z_plus. change (inject_Z 1) with 1.
        rewrite <- Pj. unfold s in Fl. lra. }
      assert (Nj' : (2 ^ j <= n)%Z).
      { rewrite <- (Qfloor_Z (2 ^ j)). apply Qfloor_resp_le.
        rewrite <- Pj. exact L. }
      replace n with (2 ^ j)%Z by lia.
      rewrite inject_Z_plus. change (inject_Z 1) with 1. rewrite <- Pj.
      unfold s. lra.
    - (* a and the sum lie in the same binade *)
      assert (Ua : a < p2 (j + 1))
        by (apply Qle_lt_trans with s; [unfold s; lra | exact U]).
      pose proof (is_double_scaled a j D Same Ua) as Ea. fold g in Ea.
      set (Ma := rne (a / g)) in *.
      pose proof (half_scaled j ltac:(lia)) as Eh. fold g in Eh.
      pose proof (int_scaled (n + 1) j ltac:(lia)) as En. fold g in En.
      set (K := ((n + 1) * 2 ^ (52 - j))%Z) in *.
      assert (Es : s == inject_Z (Ma + 2 ^ (51 - j)) * g).
      { unfold s. rewrite inject_Z_plus. rewrite Ea at 1.
        rewrite Eh at 1. ring. }
      assert (Lt : (Ma + 2 ^ (51 - j) < K)%Z).
      { rewrite Zlt_Qlt. apply (Qmult_lt_r _ _ g G).
        rewrite <- Es, <- En. rewrite inject_Z_plus.
        change (inject_Z 1) with 1. exact Fu. }
      rewrite Es, En, scaled_pred.
      apply Qmult_le_r; [exact G|]. rewrite <- Zle_Qle. lia. }
  (* hence the rounding stays below n + 1 *)
  assert (Rle : round64 s <= inject_Z (n + 1) - g).
  { rewrite (round64_pos s Ps), (round_pos_bin s j L U). fold g.
    pose proof (int_scaled (n + 1) j ltac:(lia)) as En. fold g in En.
    set (K := ((n + 1) * 2 ^ (52 - j))%Z) in *.
    rewrite En, scaled_pred.
    apply Qmult_le_r; [exact G|]. rewrite <- Zle_Qle.
    apply rne_le_Z. apply div_le; [exact G|].
    rewrite <- scaled_pred, <- En. exact Key. }
  assert (Rlt : round64 s < inject_Z (n + 1)) by lra.
  assert (Fr : (Qfloor (round64 s) < n + 1)%Z).
  { rewrite Zlt_Qlt. apply Qle_lt_trans with (round64 s);
      [apply Qfloor_le | exact Rlt]. }
  lia.
Qed.

(** The rounding error is at most half the spacing. *)
Lemma round_pos_err (q : Q) (j : Z) :
  p2 j <= q -> q < p2 (j + 1) ->
  - ((1 # 2) * p2 (j - 52)) <= round_pos q - q /\
  round_pos q - q <= (1 # 2) * p2 (j - 52).
Proof.
  intros L U. rewrite (round_pos_bin q j L U).
  pose proof (p2_pos (j - 52)) as G. set (g := p2 (j - 52)) in *.
  destruct (rne_err (q / g)) as [A B]. set (r := rne (q / g)) in *.
  assert (E : inject_Z r * g - q == (inject_Z r - q / g) * g).
  { rewrite <- (div_mul q g G) at 1. ring. }
  rewrite E. split.
  - setoid_replace (- ((1 # 2) * g)) with (- (1 # 2) * g) by ring.
    apply Qmult_le_r; assumption.
  - apply Qmult_le_r; assumption.
Qed.

Lemma round_pos_err_small (q : Q) :
  0 < q -> q <= inject_Z (2 ^ 31) ->
  - (1 # 4194304) <= round_pos q - q /\ round_pos q - q <= 1 # 4194304.
Proof.
  intros P H. destruct (ilog2_spec q P) as [L U]. set (j := ilog2 q) in *.
  assert (J : (j < 32)%Z).
  { apply p2_lt_inv. apply Qle_lt_trans with q; [exact L|].
    apply Qle_lt_trans with (inject_Z (2 ^ 31)); [exact H | reflexivity]. }
  destruct (round_pos_err q j L U) as [A B].
  assert (G : p2 (j - 52) <= 1 # 2097152).
  { change (1 # 2097152) with (p2 (-21)). apply p2_le. lia. }
  split; lra.
Qed.

Lemma round64_err (q : Q) :
  - inject_Z (2 ^ 31) <= q -> q <= inject_Z (2 ^ 31) ->
  - (1 # 4194304) <= round64 q - q /\ round64 q - q <= 1 # 4194304.
Proof.
  intros Lo Hi. unfold round64.
  destruct (Qcompare_spec q 0) as [E|L|G].
  - rewrite E. split; discriminate.
  - rewrite Qred_correct.
    assert (P : 0 < - q) by lra.
    assert (H : - q <= inject_Z (2 ^ 31)) by lra.
    destruct (round_pos_err_small (- q) P H) as [A B]. split; lra.
  - rewrite Qred_correct.
    destruct (round_pos_err_small q G Hi) as [A B]. split; lra.
Qed.

End Binary64.
Import Binary64.

(** ** Layout *)

Lemma measured_okb_spec (te : cairo_text_extents_t)
  (fe : cairo_font_extents_t) :
  measured_okb te fe = true ->
  (0 <= x_advance te)%Q /\ (x_advance te <= inject_Z (2 ^ 30))%Q /\
  (0 <= ascent fe + descent fe)%Q /\
  (ascent fe + descent fe <= inject_Z (2 ^ 30))%Q.
Proof.
  unfold measured_okb. rewrite !andb_true_iff, !Qle_bool_iff. tauto.
Qed.

Lemma measured_okb_double (te : cairo_text_extents_t)
  (fe : cairo_font_extents_t) :
  measured_okb te fe = true -> is_double (x_advance te) = true.
Proof.
  unfold measured_okb. rewrite !andb_true_iff. tauto.
Qed.

Lemma config_okb_spec (opt : options_t) (sw : Z) :
  config_okb opt sw = true ->
  0 <= margin_px opt < 2147418112 /\ 0 <= sw < 65536.
Proof.
  unfold config_okb. change (2 ^ 31 - 2 ^ 16) with 2147418112.
  change (2 ^ 16) with 65536.
  rewrite !andb_true_iff, !Z.leb_le, !Z.ltb_lt. lia.
Qed.

(** The double sum of two numbers whose exact sum lies in [0, 2^30] lies
    there too. *)
Lemma fadd_range (x y : Q) :
  (0 <= x + y)%Q -> (x + y <= inject_Z (2 ^ 30))%Q ->
  (0 <= fadd x y)%Q /\ (fadd x y <= inject_Z (2 ^ 30))%Q.
Proof.
  intros H0 H1. unfold fadd. split.
  - apply round64_nonneg. exact H0.
  - apply round64_le_Z; [exact H0 | exact H1 | reflexivity].
Qed.

(** [(int)(x + 0.5)] for a double [x] in [0, 2^30]: defined, and the
    integer part of the double sum. *)
Lemma double_to_int_fadd_half (x : Q) :
  (0 <= x)%Q -> (x <= inject_Z (2 ^ 30))%Q ->
  double_to_int (fadd x half) = Some (Qfloor (fadd x half)) /\
  0 <= Qfloor (fadd x half) <= 2 ^ 30.
Proof.
  intros H0 H1. unfold fadd.
  assert (S0 : (0 <= x + half)%Q) by (unfold half; lra).
  assert (R0 : (0 <= round64 (x + half))%Q) by (apply round64_nonneg; exact S0).
  assert (R1 : (round64 (x + half) <= inject_Z (2 ^ 30) + half)%Q).
  { assert (E : (round64 (inject_Z (2 ^ 30) + half)
                 == inject_Z (2 ^ 30) + half)%Q) by (vm_compute; reflexivity).
    rewrite <- E. apply round64_mono; [exact S0 | unfold half; lra]. }
  assert (B : 0 <= Qfloor (round64 (x + half)) <= 2 ^ 30).
  { split.
    - change 0 with (Qfloor 0). apply Qfloor_resp_le. exact R0.
    - change (2 ^ 30) with (Qfloor (inject_Z (2 ^ 30) + half)).
      apply Qfloor_resp_le. exact R1. }
  split; [|exact B]. change (2 ^ 30) with 1073741824 in B.
  unfold double_to_int. rewrite Qtrunc_nonneg by exact R0.
  assert (Hi : in_int (Qfloor (round64 (x + half))) = true)
    by (apply in_int_iff; lia).
  rewrite Hi. reflexivity.
Qed.

Lemma text_size_value (te : cairo_text_extents_t)
  (fe : cairo_font_extents_t) :
  measured_okb te fe = true ->
  text_size te fe
  = Some (Qfloor (fadd (x_advance te) half),
          Qfloor (fadd (fadd (ascent fe) (descent fe)) half)) /\
  0 <= Qfloor (fadd (x_advance te) half) <= 2 ^ 30 /\
  0 <= Qfloor (fadd (fadd (ascent fe) (descent fe)) half) <= 2 ^ 30.
Proof.
  intros H. apply measured_okb_spec in H. destruct H as (A0 & A1 & B0 & B1).
  destruct (fadd_range _ _ B0 B1) as [S0 S1].
  destruct (double_to_int_fadd_half _ A0 A1) as [Ew Bw].
  destruct (double_to_int_fadd_half _ S0 S1) as [Eh Bh].
  unfold text_size. rewrite Ew, Eh.
  split; [reflexivity | split; assumption].
Qed.

(** The integer part of [x + 0.5] as a double, against rounding [x] half
    up: equal from one half on, and never more than one above. *)
Lemma floor_fadd_half (x : Q) :
  (0 <= x)%Q -> (x <= inject_Z (2 ^ 30))%Q ->
  round_half_up x <= Qfloor (fadd x half) <= round_half_up x + 1.
Proof.
  intros H0 H1. unfold round_half_up, fadd.
  apply floor_round64; [unfold half; lra|].
  apply Qle_trans with (inject_Z (2 ^ 30) + half)%Q;
    [unfold half; lra | discriminate].
Qed.

Lemma floor_fadd_half_exact (x : Q) :
  is_double x = true -> (half <= x)%Q -> (x <= inject_Z (2 ^ 30))%Q ->
  Qfloor (fadd x half) = round_half_up x.
Proof.
  intros D H0 H1. unfold round_half_up, fadd, half in *.
  apply floor_round64_half; assumption.
Qed.

Lemma round_half_up_small (x : Q) :
  (0 <= x)%Q -> (x < half)%Q -> round_half_up x = 0.
Proof.
  intros H0 H1. unfold round_half_up, half in *.
  pose proof (Qfloor_le (x + (1 # 2))) as L.
  pose proof (Qlt_floor (x + (1 # 2))) as U.
  assert (A : Qfloor (x + (1 # 2)) < 1).
  { rewrite Zlt_Qlt. apply Qle_lt_trans with (x + (1 # 2))%Q; [exact L|].
    change (inject_Z 1) with 1%Q. lra. }
  assert (B : -1 < Qfloor (x + (1 # 2))).
  { rewrite Zlt_Qlt. assert (C : (inject_Z (-1) + 1 == 0)%Q) by reflexivity.
    rewrite inject_Z_plus in U. change (inject_Z 1) with 1%Q in U.
    change (inject_Z (-1)) with (-1 # 1)%Q. lra. }
  lia.
Qed.

(** The size computation on rounded extents far inside [int]. *)
Lemma window_size_mod (m tw th : Z) :
  0 <= tw <= 2 ^ 30 -> 0 <= th <= 2 ^ 30 ->
  window_size m tw th
  = Some (m mod 2 ^ 16, (tw + 2 * m) mod 2 ^ 16, (th + 2 * m) mod 2 ^ 16).
Proof.
  change (2 ^ 30) with 1073741824. change (2 ^ 16) with 65536.
  intros Hw Hh. unfold window_size. rewrite !to_uint16_eq.
  pose proof (Z.mod_pos_bound m 65536 ltac:(lia)) as Hp.
  rewrite int_mul_in by lia. cbn [bind].
  rewrite !int_add_in by lia. cbn [bind].
  rewrite !to_uint16_eq.
  replace (tw + m mod 65536 * 2) with (tw + 2 * (m mod 65536)) by ring.
  replace (th + m mod 65536 * 2) with (th + 2 * (m mod 65536)) by ring.
  rewrite (Z.add_mod tw (2 * (m mod 65536))), (Z.add_mod tw (2 * m)) by lia.
  rewrite (Z.add_mod th (2 * (m mod 65536))), (Z.add_mod th (2 * m)) by lia.
  rewrite (Z.mul_mod 2 (m mod 65536)), (Z.mul_mod 2 m) by lia.
  rewrite Z.mod_mod by lia. reflexivity.
Qed.

Lemma window_pos_int16 (m sw w : Z) :
  0 <= m < 2147418112 -> 0 <= sw < 65536 -> 0 <= w < 65536 ->
  window_pos m sw w = Some (to_int16 (sw - w - m), to_int16 m).
Proof.
  intros Hm Hs Hw. unfold window_pos.
  rewrite !to_int32_small by lia.
  rewrite int_sub_in by lia. cbn [bind].
  rewrite int_sub_in by lia. reflexivity.
Qed.

(** The layout in closed form, on inputs for which it is defined. *)
Lemma layout_closed (opt : options_t) (sw : Z)
  (te : cairo_text_extents_t) (fe : cairo_font_extents_t) :
  config_okb opt sw = true -> measured_okb te fe = true ->
  let tw := Qfloor (fadd (x_advance te) half) in
  let th := Qfloor (fadd (fadd (ascent fe) (descent fe)) half) in
  let m := margin_px opt in
  layout opt sw te fe
  = Some {| text_w := tw; text_h := th; pad := m mod 2 ^ 16;
            win_w := (tw + 2 * m) mod 2 ^ 16;
            win_h := (th + 2 * m) mod 2 ^ 16;
            new_x := to_int16 (sw - (tw + 2 * m) mod 2 ^ 16 - m);
            new_y := to_int16 m |}.
Proof.
  intros Hc Hm tw th m.
  destruct (text_size_value te fe Hm) as (Et & Tw & Th).
  destruct (config_okb_spec opt sw Hc) as [Hmr Hsw].
  unfold layout. rewrite Et. cbn [bind].
  rewrite (window_size_mod (margin_px opt) _ _ Tw Th). cbn [bind].
  rewrite window_pos_int16; try assumption.
  - reflexivity.
  - change (2 ^ 16) with 65536. apply Z.mod_pos_bound. lia.
Qed.

(** C4, as the code has it. For every margin and screen width of a valid
    configuration and every measurement that is not negative, the text
    width is the integer part of the double sum [advance + 0.5]: the
    advance rounded half up whenever it is at least one half, and never
    more than one above that; the text height is the same function of the
    double sum [ascent + descent]; the window width and height are these
    plus twice the margin, reduced modulo 2^16 (so exactly these sums while
    they stay below 65536). No ceiling is taken. With margin 8, advance
    120, ascent 14 and descent 4 the window is 136 by 34; with the doubles
    nearest 14.2 and 4.3 for ascent and descent, whose double sum is 18.5,
    it is 136 by 35. *)
Theorem layout_size_rounds (opt : options_t) (sw : Z)
  (te : cairo_text_extents_t) (fe : cairo_font_extents_t) :
  config_okb opt sw = true -> measured_okb te fe = true ->
  (exists g, layout opt sw te fe = Some g /\
     text_w g = Qfloor (fadd (x_advance te) half) /\
     text_h g = Qfloor (fadd (fadd (ascent fe) (descent fe)) half) /\
     ((half <= x_advance te)%Q ->
      text_w g = round_half_up (x_advance te)) /\
     ((half <= fadd (ascent fe) (descent fe))%Q ->
      text_h g = round_half_up (fadd (ascent fe) (descent fe))) /\
     round_half_up (x_advance te) <= text_w g
     <= round_half_up (x_advance te) + 1 /\
     round_half_up (fadd (ascent fe) (descent fe)) <= text_h g
     <= round_half_up (fadd (ascent fe) (descent fe)) + 1 /\
     win_w g = (text_w g + 2 * margin_px opt) mod 2 ^ 16 /\
     win_h g = (text_h g + 2 * margin_px opt) mod 2 ^ 16 /\
     (text_w g + 2 * margin_px opt < 2 ^ 16 ->
      win_w g = text_w g + 2 * margin_px opt) /\
     (text_h g + 2 * margin_px opt < 2 ^ 16 ->
      win_h g = text_h g + 2 * margin_px opt)) /\
  layout (with_margin default_options 8) 1920 (extents_of 120) (font_of 14 4)
  = Some {| text_w := 120; text_h := 18; pad := 8; win_w := 136; win_h := 34;
            new_x := 1776; new_y := 8 |} /\
  layout (with_margin default_options 8) 1920 (extents_of 120)
    (font_of (3996944669291315 # 281474976710656) (4841369599423283 # 1125899906842624))
  = Some {| text_w := 120; text_h := 19; pad := 8; win_w := 136; win_h := 35;
            new_x := 1776; new_y := 8 |}.
Proof.
  intros Hc Hm. split; [|split; vm_compute; reflexivity].
  pose proof (measured_okb_spec te fe Hm) as (A0 & A1 & B0 & B1).
  pose proof (measured_okb_double te fe Hm) as Da.
  destruct (fadd_range _ _ B0 B1) as [S0 S1].
  assert (Ds : is_double (fadd (ascent fe) (descent fe)) = true)
    by (apply is_double_round64; exact B0).
  destruct (text_size_value te fe Hm) as (_ & Tw & Th).
  destruct (config_okb_spec opt sw Hc) as [Hmr Hsw].
  rewrite (layout_closed opt sw te fe Hc Hm).
  eexists. split; [reflexivity|]. cbn [text_w text_h win_w win_h].
  split; [reflexivity | split; [reflexivity|]].
  split; [intros H; apply floor_fadd_half_exact; assumption|].
  split; [intros H; apply floor_fadd_half_exact; assumption|].
  split; [apply floor_fadd_half; assumption|].
  split; [apply floor_fadd_half; assumption|].
  split; [reflexivity | split; [reflexivity|]].
  change (2 ^ 30) with 1073741824 in *. change (2 ^ 16) with 65536.
  split; intros Hlt; apply Z.mod_small; lia.
Qed.

Lemma layout_size_rounds_witness :
  let opt := with_margin default_options 8 in
  let te := extents_of (241 # 2) in
  let fe := font_of (29 # 2) 4 in
  config_okb opt 1920 = true /\ measured_okb te fe = true /\
  exists g, layout opt 1920 te fe = Some g /\ win_w g = 137 /\ win_h g = 35.
Proof.
  intros opt te fe.
  assert (Hc : config_okb opt 1920 = true) by reflexivity.
  assert (Hm : measured_okb te fe = true) by (vm_compute; reflexivity).
  destruct (layout_size_rounds opt 1920 te fe Hc Hm)
    as [[g (Hg & Tw & Th & _ & _ & _ & _ & Hw & Hh & _)] _].
  split; [exact Hc | split; [exact Hm |]].
  exists g. split; [exact Hg | split].
  - rewrite Hw, Tw. vm_compute. reflexivity.
  - rewrite Hh, Th. vm_compute. reflexivity.
Defined.

(** The double sum [ascent + descent] of the doubles nearest 14.2 and 4.3
    is 18.5, where the exact sum is just below it: the text height is 19,
    and so is the first double below one half plus one half rounded. *)
Example layout_rounds_in_binary64 :
  text_size (extents_of (round64 (1 # 3)))
    (font_of (round64 (142 # 10)) (round64 (43 # 10))) = Some (0, 19) /\
  round_half_up (round64 (142 # 10) + round64 (43 # 10)) = 18 /\
  text_size (extents_of (9007199254740991 # 18014398509481984)) (font_of 14 4)
  = Some (1, 18) /\
  round_half_up (9007199254740991 # 18014398509481984) = 0.
Proof. vm_compute. repeat split. Qed.

(** Against C4 as stated: an advance of 120.25 pixels is rounded to 120,
    not raised to its ceiling 121, so the width is 136 where the spec's
    formula gives 137. *)
Lemma layout_width_is_not_ceiling :
  ~ (forall opt sw te fe g,
       layout opt sw te fe = Some g ->
       win_w g = spec_width (x_advance te) (margin_px opt) /\
       win_h g = spec_height (ascent fe) (descent fe) (margin_px opt)).
Proof.
  intros H.
  assert (E : layout (with_margin default_options 8) 1920
                (extents_of (481 # 4)) (font_of 14 4)
              = Some {| text_w := 120; text_h := 18; pad := 8; win_w := 136;
                        win_h := 34; new_x := 1776; new_y := 8 |})
    by (vm_compute; reflexivity).
  destruct (H _ _ _ _ _ E) as [Hw _]. vm_compute in Hw. discriminate Hw.
Qed.

(** C5, as the code has it. With a margin below 32768 the window's [y] is
    the margin, and whenever [screenWidth - width - margin] fits the signed
    16 bits of [new_x], [x + width + margin] is the screen width. *)
Theorem layout_right_aligned (opt : options_t) (sw : Z)
  (te : cairo_text_extents_t) (fe : cairo_font_extents_t) :
  config_okb opt sw = true -> measured_okb te fe = true ->
  margin_px opt < 2 ^ 15 ->
  exists g, layout opt sw te fe = Some g /\
    new_y g = margin_px opt /\
    (- 2 ^ 15 <= sw - win_w g - margin_px opt < 2 ^ 15 ->
     new_x g + win_w g + margin_px opt = sw).
Proof.
  intros Hc Hm Hlt. change (2 ^ 15) with 32768 in *.
  destruct (config_okb_spec opt sw Hc) as [Hmr Hsw].
  rewrite (layout_closed opt sw te fe Hc Hm).
  eexists. split; [reflexivity|]. cbn [win_w new_x new_y].
  split.
  - apply to_int16_small. lia.
  - intros Hx. rewrite to_int16_small by lia. ring.
Qed.

Lemma layout_right_aligned_witness :
  let opt := with_margin default_options 8 in
  let te := extents_of 120 in
  let fe := font_of 14 4 in
  config_okb opt 1920 = true /\ measured_okb te fe = true /\
  margin_px opt < 2 ^ 15 /\
  exists g, layout opt 1920 te fe = Some g /\
    new_y g = 8 /\ new_x g + win_w g + 8 = 1920.
Proof.
  intros opt te fe.
  assert (Hc : config_okb opt 1920 = true) by reflexivity.
  assert (Hm : measured_okb te fe = true) by (vm_compute; reflexivity).
  assert (Hl : margin_px opt < 2 ^ 15) by reflexivity.
  destruct (layout_right_aligned opt 1920 te fe Hc Hm Hl)
    as [g (Hg & Hy & Hx)].
  split; [exact Hc | split; [exact Hm | split; [exact Hl |]]].
  exists g. split; [exact Hg | split; [exact Hy |]].
  apply Hx.
  assert (E : layout opt 1920 te fe
              = Some {| text_w := 120; text_h := 18; pad := 8; win_w := 136;
                        win_h := 34; new_x := 1776; new_y := 8 |})
    by (vm_compute; reflexivity).
  rewrite E in Hg. injection Hg as <-. cbn [win_w margin_px opt with_margin].
  split; [discriminate | reflexivity].
Defined.

(** Against C5 as stated: with [--margin 40000] on a screen 1920 wide the
    window is placed at y = -25536 and x = 12872, and
    12872 + 14584 + 40000 is not 1920. *)
Lemma layout_not_always_right_aligned :
  ~ (forall opt sw te fe g,
       layout opt sw te fe = Some g ->
       new_x g + win_w g + margin_px opt = sw /\ new_y g = margin_px opt).
Proof.
  intros H.
  assert (E : layout (with_margin default_options 40000) 1920
                (extents_of 120) (font_of 14 4)
              = Some {| text_w := 120; text_h := 18; pad := 40000;
                        win_w := 14584; win_h := 14482;
                        new_x := 12872; new_y := -25536 |})
    by (vm_compute; reflexivity).
  destruct (H _ _ _ _ _ E) as [_ Hy]. vm_compute in Hy. discriminate Hy.
Qed.

Lemma round_half_up_mono (p q : Q) :
  (p <= q)%Q -> round_half_up p <= round_half_up q.
Proof.
  intros H. unfold round_half_up. apply Qfloor_resp_le.
  apply Qplus_le_l. exact H.
Qed.

(** C9, as the code has it. For a fixed margin and font, when the width of
    the wider text with its padding stays below 65536, a strictly longer
    advance width never yields a smaller window width. *)
Theorem layout_width_monotone (opt : options_t) (sw : Z)
  (te1 te2 : cairo_text_extents_t) (fe : cairo_font_extents_t) :
  config_okb opt sw = true ->
  measured_okb te1 fe = true -> measured_okb te2 fe = true ->
  (x_advance te1 < x_advance te2)%Q ->
  round_half_up (x_advance te2) + 2 * margin_px opt < 2 ^ 16 ->
  exists g1 g2,
    layout opt sw te1 fe = Some g1 /\ layout opt sw te2 fe = Some g2 /\
    win_w g1 <= win_w g2.
Proof.
  intros Hc H1 H2 Hlt Hfit. change (2 ^ 16) with 65536 in Hfit.
  pose proof (measured_okb_spec te1 fe H1) as (A0 & A1 & _).
  pose proof (measured_okb_spec te2 fe H2) as (C0 & C1 & _).
  pose proof (measured_okb_double te2 fe H2) as D2.
  destruct (text_size_value te1 fe H1) as (_ & T1 & _).
  destruct (text_size_value te2 fe H2) as (_ & T2 & _).
  destruct (config_okb_spec opt sw Hc) as [Hmr Hsw].
  assert (Hmono : Qfloor (fadd (x_advance te1) half)
                  <= Qfloor (fadd (x_advance te2) half)).
  { apply Qfloor_resp_le. unfold fadd. apply round64_mono.
    - unfold half. lra.
    - unfold half. lra. }
  assert (Hno : Qfloor (fadd (x_advance te2) half) + 2 * margin_px opt
                < 65536).
  { destruct (Qlt_le_dec (x_advance te2) half) as [Small|Big].
    - pose proof (round_half_up_small _ C0 Small) as R0.
      pose proof (floor_fadd_half _ C0 C1) as F. lia.
    - rewrite (floor_fadd_half_exact _ D2 Big C1). exact Hfit. }
  rewrite (layout_closed opt sw te1 fe Hc H1).
  rewrite (layout_closed opt sw te2 fe Hc H2).
  do 2 eexists. split; [reflexivity | split; [reflexivity |]].
  cbn [win_w]. change (2 ^ 16) with 65536.
  rewrite !Z.mod_small by lia. lia.
Qed.

Lemma layout_width_monotone_witness :
  let opt := with_margin default_options 8 in
  let fe := font_of 14 4 in
  config_okb opt 1920 = true /\
  measured_okb (extents_of 120) fe = true /\
  measured_okb (extents_of 285) fe = true /\
  exists g1 g2,
    layout opt 1920 (extents_of 120) fe = Some g1 /\
    layout opt 1920 (extents_of 285) fe = Some g2 /\
    win_w g1 <= win_w g2.
Proof.
  intros opt fe.
  assert (Hc : config_okb opt 1920 = true) by reflexivity.
  assert (H1 : measured_okb (extents_of 120) fe = true)
    by (vm_compute; reflexivity).
  assert (H2 : measured_okb (extents_of 285) fe = true)
    by (vm_compute; reflexivity).
  split; [exact Hc | split; [exact H1 | split; [exact H2 |]]].
  apply (layout_width_monotone opt 1920 _ _ fe Hc H1 H2); reflexivity.
Defined.

(** Against C9 as stated: with margin 8 an advance of 100 gives a window
    116 wide, and the longer advance of 65520 gives a window 0 wide. *)
Lemma layout_width_not_monotone :
  ~ (forall opt sw te1 te2 fe g1 g2,
       (x_advance te1 < x_advance te2)%Q ->
       layout opt sw te1 fe = Some g1 -> layout opt sw te2 fe = Some g2 ->
       win_w g1 <= win_w g2).
Proof.
  intros H.
  assert (E1 : layout (with_margin default_options 8) 1920
                 (extents_of 100) (font_of 14 4)
               = Some {| text_w := 100; text_h := 18; pad := 8; win_w := 116;
                         win_h := 34; new_x := 1796; new_y := 8 |})
    by (vm_compute; reflexivity).
  assert (E2 : layout (with_margin default_options 8) 1920
                 (extents_of 65520) (font_of 14 4)
               = Some {| text_w := 65520; text_h := 18; pad := 8; win_w := 0;
                         win_h := 34; new_x := 1912; new_y := 8 |})
    by (vm_compute; reflexivity).
  assert (Hlt : (x_advance (extents_of 100)
                 < x_advance (extents_of 65520))%Q) by reflexivity.
  specialize (H _ _ _ _ _ _ _ Hlt E1 E2).
  vm_compute in H. apply H. reflexivity.
Qed.

(** C10. The window size is reduced to 16 bits: the padding is
    [margin mod 2^16] and the width and height are the text extent plus
    twice the margin, modulo 2^16; once the sum reaches 65536 the dimension
    is smaller than the sum, not clamped and not an error. *)
Theorem window_size_wraps (m tw th : Z) :
  0 <= tw <= 2 ^ 30 -> 0 <= th <= 2 ^ 30 ->
  exists p w h,
    window_size m tw th = Some (p, w, h) /\
    p = m mod 2 ^ 16 /\
    w = (tw + 2 * p) mod 2 ^ 16 /\ h = (th + 2 * p) mod 2 ^ 16 /\
    w = (tw + 2 * m) mod 2 ^ 16 /\ h = (th + 2 * m) mod 2 ^ 16 /\
    0 <= w < 2 ^ 16 /\ 0 <= h < 2 ^ 16 /\
    (2 ^ 16 <= tw + 2 * m -> w < tw + 2 * m) /\
    (2 ^ 16 <= th + 2 * m -> h < th + 2 * m).
Proof.
  intros Hw Hh. rewrite (window_size_mod m tw th Hw Hh).
  change (2 ^ 16) with 65536.
  pose proof (Z.mod_pos_bound (tw + 2 * m) 65536 ltac:(lia)) as Bw.
  pose proof (Z.mod_pos_bound (th + 2 * m) 65536 ltac:(lia)) as Bh.
  do 3 eexists. split; [reflexivity|].
  split; [reflexivity|].
  split.
  { rewrite (Z.add_mod tw (2 * (m mod 65536))), (Z.add_mod tw (2 * m)) by lia.
    rewrite (Z.mul_mod 2 (m mod 65536)), (Z.mul_mod 2 m) by lia.
    rewrite Z.mod_mod by lia. reflexivity. }
  split.
  { rewrite (Z.add_mod th (2 * (m mod 65536))), (Z.add_mod th (2 * m)) by lia.
    rewrite (Z.mul_mod 2 (m mod 65536)), (Z.mul_mod 2 m) by lia.
    rewrite Z.mod_mod by lia. reflexivity. }
  repeat split; try lia.
Qed.

Lemma window_size_wraps_witness :
  0 <= 65520 <= 2 ^ 30 /\ 0 <= 18 <= 2 ^ 30 /\
  window_size 65544 65520 18 = Some (8, 0, 34).
Proof.
  assert (Hw : 0 <= 65520 <= 2 ^ 30) by (split; discriminate).
  assert (Hh : 0 <= 18 <= 2 ^ 30) by (split; discriminate).
  destruct (window_size_wraps 65544 65520 18 Hw Hh)
    as (p & w & h & Hs & Hp & _ & _ & Hww & Hhh & _).
  split; [exact Hw | split; [exact Hh |]].
  rewrite Hs, Hp, Hww, Hhh. reflexivity.
Defined.

(** ** Draining *)

Lemma wants_redraw_classify (rt : Z) :
  wants_redraw rt = redraw_kind (classify rt).
Proof.
  unfold wants_redraw, classify.
  destruct (rt =? XCB_EXPOSE); [reflexivity|].
  destruct (rt =? XCB_VISIBILITY_NOTIFY); [reflexivity|].
  destruct (rt =? XCB_CONFIGURE_NOTIFY); reflexivity.
Qed.

Lemma drain_events_flag (dbg : bool) (queue : list xcb_generic_event_t) :
  forall need_redraw,
    fst (drain_events dbg queue need_redraw)
    = need_redraw || existsb (fun e => wants_redraw (event_rt e)) queue.
Proof.
  induction queue as [|ev rest IH]; intros b; cbn [drain_events existsb].
  - cbn. rewrite orb_false_r. reflexivity.
  - specialize (IH (drain_step ev b)).
    destruct (drain_events dbg rest (drain_step ev b)) as [flag log].
    cbn [fst] in *. rewrite IH. unfold drain_step.
    destruct (wants_redraw (event_rt ev)), b; reflexivity.
Qed.

(** The drain loop logs and sends nothing else. *)
Lemma drain_events_log (dbg : bool) (queue : list xcb_generic_event_t) :
  forall need_redraw (p : request -> bool),
    (forall name rt, p (DebugEvent name rt) = false) ->
    filter p (snd (drain_events dbg queue need_redraw)) = [].
Proof.
  induction queue as [|ev rest IH]; intros b p Hp; cbn [drain_events].
  - reflexivity.
  - specialize (IH (drain_step ev b) p Hp).
    destruct (drain_events dbg rest (drain_step ev b)) as [flag log].
    cbn [snd] in *. rewrite filter_app, IH, app_nil_r.
    unfold drain_log. destruct dbg; cbn; [rewrite Hp|]; reflexivity.
Qed.

(** Clearing bit 7 and keeping a byte leaves the low seven bits. *)
Lemma land_lnot_128 (r : Z) : Z.land r (Z.lnot 128) mod 2 ^ 8 = r mod 128.
Proof.
  change 128 with (2 ^ 7). apply Z.bits_inj'. intros n Hn.
  rewrite !Z.testbit_mod_pow2 by lia.
  rewrite Z.land_spec, Z.lnot_spec by lia.
  rewrite Z.pow2_bits_eqb by lia.
  destruct (Z.ltb_spec n 8); destruct (Z.ltb_spec n 7);
    destruct (Z.eqb_spec 7 n);
    try lia; cbn; rewrite ?andb_true_r, ?andb_false_r; reflexivity.
Qed.

Lemma event_rt_mod (ev : xcb_generic_event_t) :
  event_rt ev = response_type ev mod 128.
Proof.
  unfold event_rt, to_uint8, to_unsigned. apply land_lnot_128.
Qed.

(** C2. The type of a drained event is its [response_type] without the
    send-event bit, [response_type mod 128]. An event whose type is Expose
    (12), VisibilityChange (15) or ConfigureNotify (22) sets [need_redraw],
    an event of any other type leaves it as it is; so after the drain the
    flag is set exactly when it was set before or the queue held an event
    of one of the three types. *)
Theorem drain_classifies (dbg : bool) (ev : xcb_generic_event_t)
  (queue : list xcb_generic_event_t) (need_redraw : bool) :
  event_rt ev = response_type ev mod 128 /\
  classify (event_rt ev)
  = (if response_type ev mod 128 =? 12 then Expose
     else if response_type ev mod 128 =? 15 then VisibilityChange
     else if response_type ev mod 128 =? 22 then ConfigureNotify
     else Other) /\
  drain_step ev need_redraw
  = (if (response_type ev mod 128 =? 12) || (response_type ev mod 128 =? 15)
        || (response_type ev mod 128 =? 22)
     then true else need_redraw) /\
  match classify (event_rt ev) with
  | Expose | VisibilityChange | ConfigureNotify =>
      drain_step ev need_redraw = true
  | Other => drain_step ev need_redraw = need_redraw
  end /\
  fst (drain_events dbg (ev :: queue) need_redraw)
  = fst (drain_events dbg queue (drain_step ev need_redraw)) /\
  fst (drain_events dbg queue need_redraw)
  = need_redraw
    || existsb (fun e => redraw_kind (classify (event_rt e))) queue /\
  fst (drain_events dbg queue need_redraw)
  = need_redraw
    || existsb (fun e => (response_type e mod 128 =? 12)
                         || (response_type e mod 128 =? 15)
                         || (response_type e mod 128 =? 22)) queue.
Proof.
  split; [apply event_rt_mod|].
  split; [rewrite event_rt_mod; reflexivity|].
  split; [unfold drain_step; rewrite event_rt_mod; reflexivity|].
  split; [|split; [|split]].
  - unfold drain_step. rewrite wants_redraw_classify.
    destruct (classify (event_rt ev)); reflexivity.
  - cbn [drain_events].
    destruct (drain_events dbg queue (drain_step ev need_redraw)).
    reflexivity.
  - rewrite drain_events_flag. f_equal.
    induction queue as [|e rest IH]; [reflexivity|].
    cbn [existsb]. rewrite IH, wants_redraw_classify. reflexivity.
  - rewrite drain_events_flag. f_equal.
    induction queue as [|e rest IH]; [reflexivity|].
    cbn [existsb]. rewrite IH, event_rt_mod. reflexivity.
Qed.

(** The send-event bit of [response_type] does not take part: an Expose
    sent by another client is an Expose, and a key press is not. *)
Example drain_samples :
  classify (event_rt {| response_type := 12 |}) = Expose /\
  classify (event_rt {| response_type := 140 |}) = Expose /\
  classify (event_rt {| response_type := 15 |}) = VisibilityChange /\
  classify (event_rt {| response_type := 22 |}) = ConfigureNotify /\
  classify (event_rt {| response_type := 2 |}) = Other /\
  drain_events false [{| response_type := 2 |}] false = (false, []) /\
  drain_events false
    [{| response_type := 2 |}; {| response_type := 12 |};
     {| response_type := 19 |}] false = (true, []).
Proof. repeat split. Qed.

(** ** The loop *)

Lemma ms_to_next_second_int (ts : timespec) :
  to_int32 (ms_to_next_second ts) = ms_to_next_second ts.
Proof.
  apply to_int32_small. unfold ms_to_next_second. cbv zeta.
  pose proof (Z.rem_bound_abs (Z.quot (tv_nsec ts) 1000000) 1000
                ltac:(lia)) as Hb.
  destruct (_ =? 1000); lia.
Qed.

Lemma added_app (st : loop_state) (l : list request) (q : list
  xcb_generic_event_t) (s : string) :
  added st {| xqueue := q; last_str := s; sent := (sent st ++ l)%list |} = l.
Proof.
  unfold added. cbn [sent].
  rewrite skipn_app, skipn_all, Nat.sub_diag. reflexivity.
Qed.

Lemma loop_body_interrupted (L : libs) (opt : options_t) (sw : Z)
  (w : wake) (st : loop_state) :
  interrupted w = true ->
  loop_body L opt sw w st
  = Some {| xqueue := (xqueue st ++ arrivals w)%list;
            last_str := last_str st;
            sent := (sent st ++ [Poll (ms_to_next_second (clock w))])%list |}.
Proof.
  intros H. unfold loop_body. rewrite H, ms_to_next_second_int. reflexivity.
Qed.

Lemma loop_body_redraws (L : libs) (opt : options_t) (sw : Z)
  (w : wake) (st : loop_state) :
  interrupted w = false -> need_redraw_at_decision opt w st = true ->
  loop_body L opt sw w st
  = (r <- redraw L opt sw (now w) ;;
     Some {| xqueue := []; last_str := fst r;
             sent := (sent st ++
                      Poll (ms_to_next_second (clock w))
                      :: snd (drain_events (debug opt)
                                (xqueue st ++ arrivals w)%list false)
                      ++ snd r)%list |}).
Proof.
  intros Hi Hn. unfold loop_body, need_redraw_at_decision in *.
  rewrite Hi, ms_to_next_second_int.
  destruct (drain_events (debug opt) (xqueue st ++ arrivals w) false)
    as [flag log].
  cbn [fst snd] in *. rewrite Hn.
  destruct (redraw L opt sw (now w)) as [r|]; cbn [bind]; [|reflexivity].
  rewrite <- app_assoc. reflexivity.
Qed.

Lemma loop_body_idles (L : libs) (opt : options_t) (sw : Z)
  (w : wake) (st : loop_state) :
  interrupted w = false -> need_redraw_at_decision opt w st = false ->
  loop_body L opt sw w st
  = Some {| xqueue := []; last_str := last_str st;
            sent := (sent st ++
                     Poll (ms_to_next_second (clock w))
                     :: snd (drain_events (debug opt)
                               (xqueue st ++ arrivals w)%list false))%list |}.
Proof.
  intros Hi Hn. unfold loop_body, need_redraw_at_decision in *.
  rewrite Hi, ms_to_next_second_int.
  destruct (drain_events (debug opt) (xqueue st ++ arrivals w) false)
    as [flag log].
  cbn [fst snd] in *. rewrite Hn.
  rewrite <- app_assoc. reflexivity.
Qed.

(** A redraw on valid inputs is defined, and its layout is the closed
    form. *)
Lemma redraw_defined (L : libs) (opt : options_t) (sw t : Z) :
  tick_okb L opt sw t = true ->
  exists nowbuf g,
    now_timestr L t 64 (time_only opt) = Some nowbuf /\
    layout opt sw
      (cairo_text_extents L (font_family opt) (font_size_px opt) nowbuf)
      (cairo_font_extents L (font_family opt) (font_size_px opt)) = Some g /\
    0 <= win_w g < 65536 /\ 0 <= win_h g < 65536 /\
    redraw L opt sw t
    = Some (strncpy63 nowbuf,
            [CairoSelectFontFace measure_cr (font_family opt);
             CairoSetFontSize measure_cr (font_size_px opt)]
            ++ redraw_requests opt nowbuf
                 (cairo_text_extents L (font_family opt) (font_size_px opt)
                    nowbuf)
                 (cairo_font_extents L (font_family opt) (font_size_px opt))
                 g).
Proof.
  unfold tick_okb. rewrite !andb_true_iff. intros [[_ Hc] Hm].
  unfold redraw.
  destruct (now_timestr L t 64 (time_only opt)) as [nowbuf|];
    [|discriminate Hm].
  exists nowbuf. cbn [bind].
  rewrite (layout_closed opt sw _ _ Hc Hm). cbn [bind].
  eexists. split; [reflexivity | split; [reflexivity |]].
  cbn [win_w win_h]. change (2 ^ 16) with 65536.
  split; [apply Z.mod_pos_bound; lia |].
  split; [apply Z.mod_pos_bound; lia | reflexivity].
Qed.

Lemma redraw_requests_counts (opt : options_t) (nowbuf : string)
  (te : cairo_text_extents_t) (fe : cairo_font_extents_t) (g : layout_t) :
  count is_configure (redraw_requests opt nowbuf te fe g) = 1%nat /\
  count is_surface_create (redraw_requests opt nowbuf te fe g) = 1%nat /\
  count is_flush (redraw_requests opt nowbuf te fe g) = 1%nat.
Proof.
  unfold redraw_requests, count. destruct (debug opt); repeat split.
Qed.

Lemma count_app (p : request -> bool) (l1 l2 : list request) :
  count p (l1 ++ l2) = (count p l1 + count p l2)%nat.
Proof. unfold count. rewrite filter_app, length_app. reflexivity. Qed.

Lemma count_drain_log (p : request -> bool) (dbg : bool)
  (queue : list xcb_generic_event_t) (b : bool) :
  (forall name rt, p (DebugEvent name rt) = false) ->
  count p (snd (drain_events dbg queue b)) = 0%nat.
Proof.
  intros Hp. unfold count. rewrite drain_events_log by exact Hp. reflexivity.
Qed.

(** C3. In an iteration whose wait timed out, [need_redraw] is true at the
    decision whatever the drain found, and the iteration redraws exactly
    once: one configure request, one surface, one flush. Draining an empty
    queue leaves the flag false, so it neither adds a redraw nor takes the
    tick's away. *)
Theorem timeout_forces_one_redraw (L : libs) (opt : options_t) (sw : Z)
  (w : wake) (st : loop_state) :
  pr w = 0 -> tick_okb L opt sw (now w) = true ->
  drain_events (debug opt) [] false = (false, []) /\
  tick (pr w) false = true /\
  need_redraw_at_decision opt w st = true /\
  exists st',
    loop_body L opt sw w st = Some st' /\
    count is_configure (added st st') = 1%nat /\
    count is_surface_create (added st st') = 1%nat /\
    count is_flush (added st st') = 1%nat.
Proof.
  intros Hpr Hok.
  assert (Ht : forall b, tick (pr w) b = true)
    by (intros b; unfold tick; rewrite Hpr; reflexivity).
  assert (Hi : interrupted w = false)
    by (unfold interrupted; rewrite Hpr; reflexivity).
  assert (Hn : need_redraw_at_decision opt w st = true)
    by (unfold need_redraw_at_decision; apply Ht).
  split; [reflexivity | split; [apply Ht | split; [exact Hn |]]].
  rewrite (loop_body_redraws L opt sw w st Hi Hn).
  destruct (redraw_defined L opt sw (now w) Hok)
    as (nowbuf & g & _ & _ & _ & _ & Hr).
  rewrite Hr. cbn [bind fst snd]. eexists. split; [reflexivity|].
  rewrite added_app.
  destruct (redraw_requests_counts opt nowbuf
              (cairo_text_extents L (font_family opt) (font_size_px opt)
                 nowbuf)
              (cairo_font_extents L (font_family opt) (font_size_px opt)) g)
    as (C1 & C2 & C3).
  repeat split;
    change (Poll ?t :: ?l) with ([Poll t] ++ l)%list;
    rewrite !count_app, count_drain_log by reflexivity;
    [rewrite C1 | rewrite C2 | rewrite C3]; reflexivity.
Qed.

Lemma timeout_forces_one_redraw_witness :
  pr wake_timeout = 0 /\
  tick_okb (fixed_pitch 15 14 4) time_only_options 1920 (now wake_timeout)
  = true /\
  exists st',
    loop_body (fixed_pitch 15 14 4) time_only_options 1920 wake_timeout
      initial_state = Some st' /\
    count is_configure (added initial_state st') = 1%nat /\
    count is_surface_create (added initial_state st') = 1%nat /\
    count is_flush (added initial_state st') = 1%nat.
Proof.
  assert (Hp : pr wake_timeout = 0) by reflexivity.
  assert (Hk : tick_okb (fixed_pitch 15 14 4) time_only_options 1920
                 (now wake_timeout) = true)
    by (vm_compute; reflexivity).
  split; [exact Hp | split; [exact Hk |]].
  exact (proj2 (proj2 (proj2
    (timeout_forces_one_redraw (fixed_pitch 15 14 4) time_only_options 1920
       wake_timeout initial_state Hp Hk)))).
Defined.

(** An iteration woken by an event that asks for no redraw sends nothing
    but its wait. *)
Example idle_wake_sends_nothing :
  loop_body (fixed_pitch 15 14 4) time_only_options 1920
    {| clock := {| tv_sec := 7; tv_nsec := 400000000 |};
       arrivals := [{| response_type := 2 |}]; pr := 1; errno := 0;
       now := 7 |} initial_state
  = Some {| xqueue := []; last_str := ""; sent := [Poll 600] |}.
Proof. reflexivity. Qed.

(** C7. When [poll] is interrupted by a signal the iteration ends at once:
    nothing is drained (the queue keeps every event), nothing is drawn,
    [last_str] is kept, and the only call is the wait itself; the next
    iteration waits for the time its own clock reading gives. *)
Theorem eintr_reenters_sleep (L : libs) (opt : options_t) (sw : Z)
  (w w2 : wake) (st : loop_state) :
  pr w < 0 -> errno w = EINTR -> tick_okb L opt sw (now w2) = true ->
  exists st1,
    loop_body L opt sw w st = Some st1 /\
    xqueue st1 = (xqueue st ++ arrivals w)%list /\
    last_str st1 = last_str st /\
    added st st1 = [Poll (ms_to_next_second (clock w))] /\
    exists st2,
      loop_body L opt sw w2 st1 = Some st2 /\
      run L opt sw [w; w2] st = Some st2 /\
      hd_error (added st1 st2) = Some (Poll (ms_to_next_second (clock w2))).
Proof.
  intros Hpr He Hok.
  assert (Hi : interrupted w = true).
  { unfold interrupted. rewrite He.
    apply andb_true_iff. split; [apply Z.ltb_lt; exact Hpr | reflexivity]. }
  pose proof (loop_body_interrupted L opt sw w st Hi) as H1.
  eexists. split; [exact H1|]. cbn [xqueue last_str].
  split; [reflexivity | split; [reflexivity | split; [apply added_app |]]].
  cbn [run]. rewrite H1. cbn [bind].
  set (st1 := {| xqueue := _; last_str := _; sent := _ |}).
  destruct (interrupted w2) eqn:Hi2.
  - rewrite (loop_body_interrupted L opt sw w2 st1 Hi2). cbn [bind].
    eexists. split; [reflexivity | split; [reflexivity |]].
    rewrite added_app. reflexivity.
  - destruct (need_redraw_at_decision opt w2 st1) eqn:Hn2.
    + rewrite (loop_body_redraws L opt sw w2 st1 Hi2 Hn2).
      destruct (redraw_defined L opt sw (now w2) Hok)
        as (nowbuf & g & _ & _ & _ & _ & Hr).
      rewrite Hr. cbn [bind].
      eexists. split; [reflexivity | split; [reflexivity |]].
      rewrite added_app. reflexivity.
    + rewrite (loop_body_idles L opt sw w2 st1 Hi2 Hn2). cbn [bind].
      eexists. split; [reflexivity | split; [reflexivity |]].
      rewrite added_app. reflexivity.
Qed.

Lemma eintr_reenters_sleep_witness :
  pr wake_signal < 0 /\ errno wake_signal = EINTR /\
  tick_okb (fixed_pitch 15 14 4) time_only_options 1920 (now wake_timeout)
  = true /\
  exists st1,
    loop_body (fixed_pitch 15 14 4) time_only_options 1920 wake_signal
      initial_state = Some st1 /\
    xqueue st1 = [{| response_type := 12 |}] /\
    last_str st1 = EmptyString /\
    added initial_state st1 = [Poll 750].
Proof.
  assert (Hp : pr wake_signal < 0) by reflexivity.
  assert (He : errno wake_signal = EINTR) by reflexivity.
  assert (Hk : tick_okb (fixed_pitch 15 14 4) time_only_options 1920
                 (now wake_timeout) = true)
    by (vm_compute; reflexivity).
  split; [exact Hp | split; [exact He | split; [exact Hk |]]].
  destruct (eintr_reenters_sleep (fixed_pitch 15 14 4) time_only_options 1920
              wake_signal wake_timeout initial_state Hp He Hk)
    as (st1 & H1 & Hq & Hs & Ha & _).
  exists st1. split; [exact H1 | split; [exact Hq | split; [exact Hs |]]].
  exact Ha.
Defined.

(** C8. In every iteration that redraws, the configure request with the
    position, the size and the stack mode above is sent before the surface
    is created, the surface has the width and height that request carries,
    which are those of this tick's layout, and no surface or painting call
    precedes the request. *)
Theorem configure_precedes_painting (L : libs) (opt : options_t) (sw : Z)
  (w : wake) (st : loop_state) :
  interrupted w = false -> need_redraw_at_decision opt w st = true ->
  tick_okb L opt sw (now w) = true ->
  exists st' nowbuf g pre mid post,
    loop_body L opt sw w st = Some st' /\
    now_timestr L (now w) 64 (time_only opt) = Some nowbuf /\
    layout opt sw
      (cairo_text_extents L (font_family opt) (font_size_px opt) nowbuf)
      (cairo_font_extents L (font_family opt) (font_size_px opt)) = Some g /\
    added st st'
    = (pre
       ++ XcbConfigureWindow config_mask
            [to_uint32 (new_x g); to_uint32 (new_y g); win_w g; win_h g;
             XCB_STACK_MODE_ABOVE]
       :: mid
       ++ CairoXcbSurfaceCreate (win_w g) (win_h g) :: post)%list /\
    config_mask
    = XCB_CONFIG_WINDOW_X + XCB_CONFIG_WINDOW_Y + XCB_CONFIG_WINDOW_WIDTH
      + XCB_CONFIG_WINDOW_HEIGHT + XCB_CONFIG_WINDOW_STACK_MODE /\
    count (fun r => is_surface_create r || is_paint r) (pre ++ mid) = 0%nat /\
    count is_configure (pre ++ mid ++ post) = 0%nat /\
    count is_surface_create post = 0%nat /\
    count is_paint post = 2%nat.
Proof.
  intros Hi Hn Hok.
  rewrite (loop_body_redraws L opt sw w st Hi Hn).
  destruct (redraw_defined L opt sw (now w) Hok)
    as (nowbuf & g & Hs & Hg & Hw & Hh & Hr).
  rewrite Hr. cbn [bind fst snd].
  set (te := cairo_text_extents L (font_family opt) (font_size_px opt) nowbuf)
    in *.
  set (fe := cairo_font_extents L (font_family opt) (font_size_px opt)) in *.
  set (log := snd (drain_events (debug opt) (xqueue st ++ arrivals w) false)).
  exists {| xqueue := []; last_str := strncpy63 nowbuf;
            sent := (sent st ++ Poll (ms_to_next_second (clock w))
                     :: log
                     ++ [CairoSelectFontFace measure_cr (font_family opt);
                         CairoSetFontSize measure_cr (font_size_px opt)]
                     ++ redraw_requests opt nowbuf te fe g)%list |}.
  exists nowbuf, g.
  exists (Poll (ms_to_next_second (clock w))
          :: log
          ++ [CairoSelectFontFace measure_cr (font_family opt);
              CairoSetFontSize measure_cr (font_size_px opt)])%list.
  exists (if debug opt
          then [DebugTick nowbuf (text_w g) (text_h g) (win_w g) (win_h g)
                  (new_x g) (new_y g)]
          else []).
  exists [CairoCreate;
          CairoSetSourceRgb (bg_r opt) (bg_g opt) (bg_b opt);
          CairoPaint;
          CairoSelectFontFace cr (font_family opt);
          CairoSetFontSize cr (font_size_px opt);
          CairoSetSourceRgb (fg_r opt) (fg_g opt) (fg_b opt);
          CairoMoveTo (fsub (inject_Z (pad g)) (x_bearing te))
            (fadd (inject_Z (pad g)) (ascent fe));
          CairoShowText nowbuf;
          CairoSurfaceFlush;
          CairoDestroy;
          CairoSurfaceDestroy;
          XcbFlush].
  split; [reflexivity | split; [exact Hs | split; [exact Hg |]]].
  split.
  { rewrite added_app. unfold redraw_requests.
    rewrite (to_uint32_small (win_w g)), (to_uint32_small (win_h g)) by lia.
    cbn [app]. rewrite <- !app_assoc. reflexivity. }
  split; [reflexivity|].
  assert (Hlog : forall p, (forall name rt, p (DebugEvent name rt) = false) ->
                           count p log = 0%nat)
    by (intros p Hp; apply count_drain_log; exact Hp).
  repeat split.
  - change (Poll ?t :: ?l) with ([Poll t] ++ l)%list.
    rewrite !count_app, Hlog by reflexivity.
    destruct (debug opt); reflexivity.
  - change (Poll ?t :: ?l) with ([Poll t] ++ l)%list.
    rewrite !count_app, Hlog by reflexivity.
    destruct (debug opt); reflexivity.
Qed.

Lemma configure_precedes_painting_witness :
  interrupted wake_expose = false /\
  need_redraw_at_decision time_only_options wake_expose initial_state = true /\
  tick_okb (fixed_pitch 15 14 4) time_only_options 1920 (now wake_expose)
  = true /\
  exists st' post,
    loop_body (fixed_pitch 15 14 4) time_only_options 1920 wake_expose
      initial_state = Some st' /\
    added initial_state st'
    = ([Poll 600;
        CairoSelectFontFace measure_cr "DejaVu Sans Mono";
        CairoSetFontSize measure_cr 16]
       ++ XcbConfigureWindow 79 [1776; 8; 136; 34; 0]
       :: CairoXcbSurfaceCreate 136 34 :: post)%list.
Proof.
  assert (Hi : interrupted wake_expose = false) by reflexivity.
  assert (Hn : need_redraw_at_decision time_only_options wake_expose
                 initial_state = true) by reflexivity.
  assert (Hk : tick_okb (fixed_pitch 15 14 4) time_only_options 1920
                 (now wake_expose) = true)
    by (vm_compute; reflexivity).
  split; [exact Hi | split; [exact Hn | split; [exact Hk |]]].
  destruct (configure_precedes_painting (fixed_pitch 15 14 4)
              time_only_options 1920 wake_expose initial_state Hi Hn Hk)
    as (st' & nowbuf & g & pre & mid & post & Hl & _).
  exists st'. eexists. split; [exact Hl|].
  assert (E : loop_body (fixed_pitch 15 14 4) time_only_options 1920
                wake_expose initial_state
              = Some {| xqueue := []; last_str := "09:05:02";
                        sent := [Poll 600;
                                 CairoSelectFontFace measure_cr
                                   "DejaVu Sans Mono";
                                 CairoSetFontSize measure_cr 16;
                                 XcbConfigureWindow 79 [1776; 8; 136; 34; 0];
                                 CairoXcbSurfaceCreate 136 34; CairoCreate;
                                 CairoSetSourceRgb 0 0 0; CairoPaint;
                                 CairoSelectFontFace cr "DejaVu Sans Mono";
                                 CairoSetFontSize cr 16;
                                 CairoSetSourceRgb 1 1 1;
                                 CairoMoveTo 7 22; CairoShowText "09:05:02";
                                 CairoSurfaceFlush; CairoDestroy;
                                 CairoSurfaceDestroy; XcbFlush] |})
    by (vm_compute; reflexivity).
  rewrite E in Hl. injection Hl as <-. reflexivity.
Defined.

(** * Further properties of the code *)

(** ** Colours *)

Lemma all_ascii_spec (f : ascii -> bool) :
  all_ascii f = true -> forall c, f c = true.
Proof.
  unfold all_ascii. intros H c. rewrite forallb_forall in H.
  rewrite <- (ascii_nat_embedding c). apply H.
  apply in_seq. pose proof (nat_ascii_bounded c). lia.
Qed.

(** The two turns of the loop on the characters [c0] and [c1]. *)
Lemma hex_turns_value (c0 c1 : ascii) :
  match hex_turn c0 0 with
  | None => -1
  | Some v => match hex_turn c1 v with None => -1 | Some v' => v' end
  end
  = if isxdigit c0 && isxdigit c1 then 16 * hexval c0 + hexval c1 else -1.
Proof.
  apply Z.eqb_eq.
  pose proof (all_ascii_spec
                (fun a0 => all_ascii (fun a1 =>
                   Z.eqb
                     match hex_turn a0 0 with
                     | None => -1
                     | Some v =>
                         match hex_turn a1 v with
                         | None => -1
                         | Some v' => v'
                         end
                     end
                     (if isxdigit a0 && isxdigit a1
                      then 16 * hexval a0 + hexval a1 else -1)))
                ltac:(vm_compute; reflexivity) c0) as H.
  cbv beta in H. exact (all_ascii_spec _ H c1).
Qed.

Lemma hexval_range (c : ascii) :
  isxdigit c = true -> 0 <= hexval c <= 15.
Proof.
  intros H.
  pose proof (all_ascii_spec
                (fun a => if isxdigit a
                          then (0 <=? hexval a) && (hexval a <=? 15)
                          else true)
                ltac:(vm_compute; reflexivity) c) as Hc.
  cbv beta in Hc. rewrite H in Hc.
  apply andb_prop in Hc. destruct Hc as [A B].
  apply Z.leb_le in A. apply Z.leb_le in B. lia.
Qed.

Lemma parse_hex2_chars (p : string) :
  parse_hex2 p
  = if isxdigit (char_at p 0) && isxdigit (char_at p 1)
    then 16 * hexval (char_at p 0) + hexval (char_at p 1) else -1.
Proof.
  rewrite <- hex_turns_value. unfold parse_hex2. cbn [parse_hex2_from].
  destruct (hex_turn (char_at p 0) 0) as [v|]; [|reflexivity].
  destruct (hex_turn (char_at p 1) v); reflexivity.
Qed.

Lemma parse_hex2_bounds (p : string) :
  -1 <= parse_hex2 p <= 255 /\
  (parse_hex2 p <? 0) = negb (isxdigit (char_at p 0) && isxdigit (char_at p 1)).
Proof.
  rewrite parse_hex2_chars.
  destruct (isxdigit (char_at p 0)) eqn:H0;
    destruct (isxdigit (char_at p 1)) eqn:H1; cbn [andb negb];
    try (split; [lia | reflexivity]).
  pose proof (hexval_range _ H0). pose proof (hexval_range _ H1).
  split; [lia | apply Z.ltb_ge; lia].
Qed.

(** X1. [parse_hex2] reads two characters: when both are hexadecimal
    digits, in either case, it returns [16 * first + second], a value in
    [0, 255]; otherwise, also when the string is shorter than two
    characters, it returns -1. *)
Theorem parse_hex2_value (p : string) :
  parse_hex2 p
  = (if isxdigit (char_at p 0) && isxdigit (char_at p 1)
     then 16 * hexval (char_at p 0) + hexval (char_at p 1) else -1) /\
  -1 <= parse_hex2 p <= 255 /\
  (parse_hex2 p <? 0) = negb (isxdigit (char_at p 0) && isxdigit (char_at p 1)) /\
  parse_hex2 EmptyString = -1 /\
  (forall c, parse_hex2 (String c EmptyString) = -1).
Proof.
  split; [apply parse_hex2_chars|].
  destruct (parse_hex2_bounds p) as [A B].
  split; [exact A | split; [exact B | split; [reflexivity|]]].
  intros c. rewrite parse_hex2_chars. cbn [char_at String.get].
  rewrite andb_false_r. reflexivity.
Qed.

Lemma parse_hex2_prefix (a b : ascii) (rest : string) :
  parse_hex2 (String a (String b rest))
  = parse_hex2 (String a (String b EmptyString)).
Proof. rewrite !parse_hex2_chars. reflexivity. Qed.

Lemma parse_hex2_hex2_exact (upper : bool) (n : Z) :
  0 <= n <= 255 -> parse_hex2 (hex2 upper n) = n.
Proof.
  intros Hn. apply Z.eqb_eq.
  destruct upper.
  - apply (range_all_spec 0 256
             (fun k => parse_hex2 (hex2 true k) =? k));
      [vm_compute; reflexivity | lia].
  - apply (range_all_spec 0 256
             (fun k => parse_hex2 (hex2 false k) =? k));
      [vm_compute; reflexivity | lia].
Qed.

(** X2. Round trip: a byte written as two hexadecimal digits, capitals or
    not, is read back by [parse_hex2], whatever follows the two digits. *)
Theorem parse_hex2_round_trip (upper : bool) (n : Z) (rest : string) :
  0 <= n <= 255 -> parse_hex2 (hex2 upper n ++ rest) = n.
Proof.
  intros Hn. unfold hex2. cbn [String.append].
  rewrite parse_hex2_prefix. apply (parse_hex2_hex2_exact upper n Hn).
Qed.

Lemma parse_hex2_round_trip_witness :
  0 <= 234 <= 255 /\ parse_hex2 ("EA" ++ "1010") = 234.
Proof.
  assert (H : 0 <= 234 <= 255) by lia.
  split; [exact H | exact (parse_hex2_round_trip true 234 "1010" H)].
Defined.



Lemma channel_of_byte (n : Z) : 0 <= n <= 255 -> channel_ok (n # 255).
Proof.
  intros H. unfold channel_ok, Qle. cbn [Qnum Qden]. lia.
Qed.


(** What the program's help and defaults name, and what it refuses. *)
Example parse_rgb_hex_samples :
  parse_rgb_hex "#FFFFFF" = Some (255 # 255, 255 # 255, 255 # 255) /\
  parse_rgb_hex "#000000" = Some (0 # 255, 0 # 255, 0 # 255) /\
  parse_rgb_hex "eaEAea" = Some (234 # 255, 234 # 255, 234 # 255) /\
  parse_rgb_hex "" = None /\ parse_rgb_hex "#" = None /\
  parse_rgb_hex "#12345" = None /\ parse_rgb_hex "#1234567" = None /\
  parse_rgb_hex "##12345" = None /\ parse_rgb_hex "#12345g" = None /\
  parse_rgb_hex "0x1234" = None.
Proof. repeat split. Qed.

Lemma parse_rgb_hex_unit (hex : string) (r g b : Q) :
  parse_rgb_hex hex = Some (r, g, b) ->
  channel_ok r /\ channel_ok g /\ channel_ok b.
Proof.
  unfold parse_rgb_hex. cbv zeta.
  set (p := if Ascii.eqb (char_at hex 0) "#" then skip 1 hex else hex).
  destruct (negb (Nat.eqb (strlen p) 6)); [discriminate|].
  assert (Br : -1 <= parse_hex2 p <= 255) by apply parse_hex2_bounds.
  assert (Bg : -1 <= parse_hex2 (skip 2 p) <= 255)
    by apply parse_hex2_bounds.
  assert (Bb : -1 <= parse_hex2 (skip 4 p) <= 255)
    by apply parse_hex2_bounds.
  set (rr := parse_hex2 p) in *.
  set (gg := parse_hex2 (skip 2 p)) in *.
  set (bb := parse_hex2 (skip 4 p)) in *.
  clearbody rr gg bb.
  destruct (Z.ltb_spec rr 0); [discriminate|].
  destruct (Z.ltb_spec gg 0); [discriminate|].
  destruct (Z.ltb_spec bb 0); [discriminate|].
  cbn [orb]. intros E. injection E as <- <- <-.
  split; [|split]; apply channel_of_byte; lia.
Qed.

(** X4. Every colour [parse_rgb_hex] accepts has its three channels in
    [0, 1]. *)
Theorem parse_rgb_hex_channels (hex : string) (r g b : Q) :
  parse_rgb_hex hex = Some (r, g, b) ->
  channel_ok r /\ channel_ok g /\ channel_ok b.
Proof.
  unfold parse_rgb_hex. cbv zeta.
  set (p := if Ascii.eqb (char_at hex 0) "#" then skip 1 hex else hex).
  destruct (negb (Nat.eqb (strlen p) 6)); [discriminate|].
  assert (Br : -1 <= parse_hex2 p <= 255) by apply parse_hex2_bounds.
  assert (Bg : -1 <= parse_hex2 (skip 2 p) <= 255)
    by apply parse_hex2_bounds.
  assert (Bb : -1 <= parse_hex2 (skip 4 p) <= 255)
    by apply parse_hex2_bounds.
  set (rr := parse_hex2 p) in *.
  set (gg := parse_hex2 (skip 2 p)) in *.
  set (bb := parse_hex2 (skip 4 p)) in *.
  clearbody rr gg bb.
  destruct (Z.ltb_spec rr 0); [discriminate|].
  destruct (Z.ltb_spec gg 0); [discriminate|].
  destruct (Z.ltb_spec bb 0); [discriminate|].
  cbn [orb]. intros E. injection E as <- <- <-.
  split; [|split]; apply channel_of_byte; lia.
Qed.

Lemma parse_rgb_hex_channels_witness :
  parse_rgb_hex "#EAEAEA" = Some (234 # 255, 234 # 255, 234 # 255) /\
  channel_ok (234 # 255).
Proof.
  assert (H : parse_rgb_hex "#EAEAEA"
              = Some (234 # 255, 234 # 255, 234 # 255)) by reflexivity.
  split; [exact H | exact (proj1 (parse_rgb_hex_channels _ _ _ _ H))].
Defined.




(** ** Command line *)

Lemma parse_options_app (C : libc) (a b : list getopt_result)
  (opt : options_t) :
  parse_options C (a ++ b) opt
  = match parse_options C a opt with
    | Proceed opt' => parse_options C b opt'
    | Return status printed => Return status printed
    end.
Proof.
  revert opt. induction a as [|g a IH]; intros opt; cbn [parse_options app].
  - reflexivity.
  - destruct (option_case C g opt); [reflexivity | apply IH].
Qed.

Lemma channel_ok_default : channel_ok 0 /\ channel_ok 1.
Proof. unfold channel_ok, Qle. cbn. lia. Qed.

Lemma option_case_keeps_config (C : libc) (g : getopt_result)
  (opt opt' : options_t) :
  colours_ok opt -> 0 <= margin_px opt < 2 ^ 32 ->
  (0 < font_size_px opt)%Q ->
  option_case C g opt = Proceed opt' ->
  colours_ok opt' /\ 0 <= margin_px opt' < 2 ^ 32 /\ (0 < font_size_px opt')%Q.
Proof.
  intros Hc Hm Hs. unfold option_case. cbv zeta.
  destruct (opt_c g =? char_code "h"); [discriminate|].
  destruct (opt_c g =? char_code "f");
    [intros E; injection E as <-; repeat split; try apply Hc; apply Hm || exact Hs|].
  destruct (opt_c g =? char_code "s").
  { intros E; injection E as <-. split; [exact Hc | split; [exact Hm|]].
    cbn [font_size_px with_size].
    destruct (Qle_bool (strtod C (optarg g)) 0) eqn:Q; [reflexivity|].
    apply Qnot_le_lt. intros Hle. apply Qle_bool_iff in Hle. congruence. }
  destruct (opt_c g =? char_code "m").
  { intros E; injection E as <-. split; [exact Hc | split; [|exact Hs]].
    cbn [margin_px with_margin]. apply Z.mod_pos_bound. reflexivity. }
  destruct (opt_c g =? char_code "t");
    [intros E; injection E as <-; repeat split; try apply Hc; apply Hm || exact Hs|].
  destruct (opt_c g =? char_code "d");
    [intros E; injection E as <-; repeat split; try apply Hc; apply Hm || exact Hs|].
  destruct Hc as (F1 & F2 & F3 & B1 & B2 & B3).
  destruct (opt_c g =? 1).
  { destruct (parse_rgb_hex (optarg g)) as [[[r gr] b]|] eqn:P; [|discriminate].
    destruct (parse_rgb_hex_unit _ _ _ _ P) as (R & G & B).
    intros E; injection E as <-.
    split; [|split; [exact Hm | exact Hs]].
    unfold colours_ok. cbn. tauto. }
  destruct (opt_c g =? 2); [|discriminate].
  destruct (parse_rgb_hex (optarg g)) as [[[r gr] b]|] eqn:P; [|discriminate].
  destruct (parse_rgb_hex_unit _ _ _ _ P) as (R & G & B).
  intros E; injection E as <-.
  split; [|split; [exact Hm | exact Hs]].
  unfold colours_ok. cbn. tauto.
Qed.

Lemma parse_options_keeps_config (C : libc) (gs : list getopt_result) :
  forall opt opt',
    colours_ok opt -> 0 <= margin_px opt < 2 ^ 32 ->
    (0 < font_size_px opt)%Q ->
    parse_options C gs opt = Proceed opt' ->
    colours_ok opt' /\ 0 <= margin_px opt' < 2 ^ 32 /\
    (0 < font_size_px opt')%Q.
Proof.
  induction gs as [|g gs IH]; intros opt opt' Hc Hm Hs; cbn [parse_options].
  - intros E; injection E as <-. auto.
  - destruct (option_case C g opt) as [|o] eqn:E; [discriminate|].
    destruct (option_case_keeps_config C g opt o Hc Hm Hs E) as (A & B & S).
    apply IH; assumption.
Qed.

Lemma default_options_config :
  colours_ok default_options /\ 0 <= margin_px default_options < 2 ^ 32 /\
  (0 < font_size_px default_options)%Q.
Proof.
  destruct channel_ok_default as [Z0 O1].
  split; [unfold colours_ok; cbn; tauto|].
  split; [cbn; lia | reflexivity].
Qed.

(** X6. Whatever the command line, when [main] goes on past the option
    loop every colour channel of the configuration lies in [0, 1] and the
    margin is a 32-bit unsigned value. *)
Theorem parse_options_colours_margin (C : libc)
  (gs : list getopt_result) (opt : options_t) :
  parse_options C gs default_options = Proceed opt ->
  colours_ok opt /\ 0 <= margin_px opt < 2 ^ 32.
Proof.
  intros H. destruct default_options_config as (A & B & S).
  destruct (parse_options_keeps_config C gs _ _ A B S H) as (A' & B' & _).
  split; assumption.
Qed.

Lemma parse_options_colours_margin_witness :
  exists opt,
    parse_options sample_libc sample_args default_options = Proceed opt /\
    colours_ok opt /\ margin_px opt = 10 /\ fg_r opt = 234 # 255.
Proof.
  eexists. split; [reflexivity|].
  split; [| split; reflexivity].
  exact (proj1 (parse_options_colours_margin sample_libc sample_args _
                  eq_refl)).
Defined.

(** X7. With a [double] taken as a number (the model has no NaN), the font
    size that leaves the option loop is positive: [--size] with a value
    that is zero or negative gives 16. *)
Theorem parse_options_size_positive (C : libc)
  (gs : list getopt_result) (opt : options_t) :
  parse_options C gs default_options = Proceed opt ->
  (0 < font_size_px opt)%Q /\
  (forall g o, opt_c g = char_code "s" ->
     (strtod C (optarg g) <= 0)%Q ->
     option_case C g o = Proceed (with_size o 16)).
Proof.
  intros H. destruct default_options_config as (A & B & S).
  destruct (parse_options_keeps_config C gs _ _ A B S H) as (_ & _ & S').
  split; [exact S'|].
  intros g o Hg Hle. unfold option_case. rewrite Hg. cbn.
  apply Qle_bool_iff in Hle. rewrite Hle. reflexivity.
Qed.

Lemma parse_options_size_positive_witness :
  let C := {| strtod := fun _ => (-3)%Q; strtoul := fun _ => 0 |} in
  let gs := [{| opt_c := char_code "s"; optarg := "-3" |}] in
  parse_options C gs default_options = Proceed (with_size default_options 16)
  /\ (0 < font_size_px (with_size default_options 16))%Q.
Proof.
  intros C gs.
  assert (H : parse_options C gs default_options
              = Proceed (with_size default_options 16)) by reflexivity.
  split; [exact H | exact (proj1 (parse_options_size_positive C gs _ H))].
Defined.

Lemma option_case_refusal (C : libc) (g : getopt_result) (opt : options_t) :
  accepted g = false -> option_case C g opt = refusal g.
Proof.
  unfold accepted, option_case, refusal. cbv zeta.
  destruct (opt_c g =? char_code "h") eqn:Eh; [reflexivity|].
  destruct (opt_c g =? char_code "f"); [discriminate|].
  destruct (opt_c g =? char_code "s"); [discriminate|].
  destruct (opt_c g =? char_code "m"); [discriminate|].
  destruct (opt_c g =? char_code "t"); [discriminate|].
  destruct (opt_c g =? char_code "d"); [discriminate|].
  cbn [orb].
  destruct (opt_c g =? 1);
    [destruct (parse_rgb_hex (optarg g)); [discriminate | reflexivity]|].
  destruct (opt_c g =? 2);
    [destruct (parse_rgb_hex (optarg g)); [discriminate | reflexivity]|].
  reflexivity.
Qed.

Lemma option_case_accepted (C : libc) (g : getopt_result) (opt : options_t) :
  accepted g = true -> exists opt', option_case C g opt = Proceed opt'.
Proof.
  unfold accepted, option_case. cbv zeta.
  destruct (Z.eqb_spec (opt_c g) (char_code "h")) as [Eh|Eh].
  { rewrite Eh. cbn. discriminate. }
  destruct (opt_c g =? char_code "f"); [eexists; reflexivity|].
  destruct (opt_c g =? char_code "s"); [eexists; reflexivity|].
  destruct (opt_c g =? char_code "m"); [eexists; reflexivity|].
  destruct (opt_c g =? char_code "t"); [eexists; reflexivity|].
  destruct (opt_c g =? char_code "d"); [eexists; reflexivity|].
  cbn [orb].
  destruct (opt_c g =? 1);
    [destruct (parse_rgb_hex (optarg g));
       [eexists; reflexivity | discriminate]|].
  destruct (opt_c g =? 2);
    [destruct (parse_rgb_hex (optarg g));
       [eexists; reflexivity | discriminate]|].
  discriminate.
Qed.

Lemma parse_options_accepted (C : libc) (gs : list getopt_result) :
  forall opt,
    forallb accepted gs = true ->
    exists opt', parse_options C gs opt = Proceed opt'.
Proof.
  induction gs as [|g gs IH]; intros opt H; cbn [parse_options].
  - eexists; reflexivity.
  - cbn [forallb] in H. apply andb_prop in H. destruct H as [Hg Hgs].
    destruct (option_case_accepted C g opt Hg) as [o ->].
    apply IH. exact Hgs.
Qed.

(** X8. The option loop stops at the first option it does not take: after
    options that are all taken, [-h] returns 0 with the help, a colour
    [parse_rgb_hex] refuses returns 2 with its message, anything else
    returns 2 with the help, and what follows on the command line is not
    looked at; a command line of taken options only goes on to start-up. *)
Theorem parse_options_first_refusal (C : libc) (pre : list getopt_result)
  (opt : options_t) :
  forallb accepted pre = true ->
  (exists opt', parse_options C pre opt = Proceed opt') /\
  (forall g post, accepted g = false ->
     parse_options C (pre ++ g :: post) opt = refusal g) /\
  refusal {| opt_c := char_code "h"; optarg := "" |} = Return 0 HelpText /\
  refusal {| opt_c := char_code "?"; optarg := "" |} = Return 2 HelpText.
Proof.
  intros H. destruct (parse_options_accepted C pre opt H) as [o Ho].
  split; [exists o; exact Ho|].
  split; [| split; reflexivity].
  intros g post Hg. rewrite parse_options_app, Ho. cbn [parse_options].
  rewrite (option_case_refusal C g o Hg). unfold refusal. cbv zeta.
  destruct (opt_c g =? char_code "h"); [reflexivity|].
  destruct (opt_c g =? 1); [reflexivity|].
  destruct (opt_c g =? 2); reflexivity.
Qed.

Lemma parse_options_first_refusal_witness :
  forallb accepted sample_args = true /\
  parse_options sample_libc
    (sample_args ++ {| opt_c := 2; optarg := "red" |}
                 :: [{| opt_c := char_code "h"; optarg := "" |}])
    default_options
  = Return 2 InvalidBg.
Proof.
  assert (H : forallb accepted sample_args = true) by reflexivity.
  split; [exact H|].
  destruct (parse_options_first_refusal sample_libc sample_args
              default_options H) as (_ & Hr & _).
  exact (Hr {| opt_c := 2; optarg := "red" |}
            [{| opt_c := char_code "h"; optarg := "" |}] eq_refl).
Defined.

Lemma option_case_flags (C : libc) (g : getopt_result) (opt opt' : options_t) :
  option_case C g opt = Proceed opt' ->
  time_only opt' = time_only opt || (opt_c g =? char_code "t") /\
  debug opt' = debug opt || (opt_c g =? char_code "d").
Proof.
  unfold option_case. cbv zeta.
  destruct (Z.eqb_spec (opt_c g) (char_code "h")) as [E|Eh]; [discriminate|].
  destruct (Z.eqb_spec (opt_c g) (char_code "f")) as [E|Ef].
  { rewrite E. intros H; injection H as <-. cbn.
    rewrite !orb_false_r. split; reflexivity. }
  destruct (Z.eqb_spec (opt_c g) (char_code "s")) as [E|Es].
  { rewrite E. intros H; injection H as <-. cbn.
    rewrite !orb_false_r. split; reflexivity. }
  destruct (Z.eqb_spec (opt_c g) (char_code "m")) as [E|Em].
  { rewrite E. intros H; injection H as <-. cbn.
    rewrite !orb_false_r. split; reflexivity. }
  destruct (Z.eqb_spec (opt_c g) (char_code "t")) as [E|Et].
  { rewrite E. intros H; injection H as <-. cbn.
    rewrite orb_true_r, orb_false_r. split; reflexivity. }
  destruct (Z.eqb_spec (opt_c g) (char_code "d")) as [E|Ed].
  { intros H; injection H as <-. cbn.
    rewrite orb_true_r, orb_false_r. split; reflexivity. }
  destruct (opt_c g =? 1).
  { destruct (parse_rgb_hex (optarg g)); [|discriminate].
    intros H; injection H as <-. cbn.
    rewrite !orb_false_r. split; reflexivity. }
  destruct (opt_c g =? 2); [|discriminate].
  destruct (parse_rgb_hex (optarg g)); [|discriminate].
  intros H; injection H as <-. cbn.
  rewrite !orb_false_r. split; reflexivity.
Qed.

(** X9. The two flags can only be switched on: after the option loop
    [time_only] is set exactly when it was set before or [-t] occurs on the
    command line, and [debug] likewise with [-d]. *)
Theorem parse_options_flags (C : libc) (gs : list getopt_result)
  (opt opt' : options_t) :
  parse_options C gs opt = Proceed opt' ->
  time_only opt'
  = time_only opt || existsb (fun g => opt_c g =? char_code "t") gs /\
  debug opt'
  = debug opt || existsb (fun g => opt_c g =? char_code "d") gs.
Proof.
  revert opt. induction gs as [|g gs IH]; intros opt; cbn [parse_options].
  - intros H; injection H as <-. cbn. rewrite !orb_false_r.
    split; reflexivity.
  - destruct (option_case C g opt) as [|o] eqn:E; [discriminate|].
    intros H. destruct (IH o H) as [T D].
    destruct (option_case_flags C g opt o E) as [T1 D1].
    cbn [existsb]. rewrite T, D, T1, D1, !orb_assoc. split; reflexivity.
Qed.

Lemma parse_options_flags_witness :
  exists opt,
    parse_options sample_libc sample_args default_options = Proceed opt /\
    time_only opt = true /\ debug opt = false.
Proof.
  eexists. split; [reflexivity|].
  destruct (parse_options_flags sample_libc sample_args default_options _
              eq_refl) as [T D].
  split; [rewrite T | rewrite D]; reflexivity.
Defined.

Lemma option_case_other_margin (C : libc) (g : getopt_result)
  (opt opt' : options_t) :
  is_margin_option g = false ->
  option_case C g opt = Proceed opt' -> margin_px opt' = margin_px opt.
Proof.
  unfold is_margin_option, option_case. cbv zeta. intros Hm.
  rewrite Hm.
  destruct (opt_c g =? char_code "h"); [discriminate|].
  destruct (opt_c g =? char_code "f");
    [intros H; injection H as <-; reflexivity|].
  destruct (opt_c g =? char_code "s");
    [intros H; injection H as <-; reflexivity|].
  destruct (opt_c g =? char_code "t");
    [intros H; injection H as <-; reflexivity|].
  destruct (opt_c g =? char_code "d");
    [intros H; injection H as <-; reflexivity|].
  destruct (opt_c g =? 1);
    [destruct (parse_rgb_hex (optarg g)); [|discriminate];
     intros H; injection H as <-; reflexivity|].
  destruct (opt_c g =? 2); [|discriminate].
  destruct (parse_rgb_hex (optarg g)); [|discriminate].
  intros H; injection H as <-; reflexivity.
Qed.

Lemma parse_options_other_margin (C : libc) (gs : list getopt_result) :
  forall opt opt',
    forallb (fun g => negb (is_margin_option g)) gs = true ->
    parse_options C gs opt = Proceed opt' ->
    margin_px opt' = margin_px opt.
Proof.
  induction gs as [|g gs IH]; intros opt opt' Hn; cbn [parse_options].
  - intros H; injection H as <-. reflexivity.
  - cbn [forallb] in Hn. apply andb_prop in Hn. destruct Hn as [Hg Hgs].
    apply negb_true_iff in Hg.
    destruct (option_case C g opt) as [|o] eqn:E; [discriminate|].
    intros H. rewrite (IH o opt' Hgs H).
    exact (option_case_other_margin C g opt o Hg E).
Qed.

(** X10. Of several [--margin] options the last one decides: the margin
    after the loop is what [strtoul] reads from the last [--margin]
    argument, reduced to 32 bits, whatever precedes it; and a command line
    without [--margin] leaves the margin as it was. *)
Theorem parse_options_last_margin (C : libc)
  (pre post : list getopt_result) (g : getopt_result)
  (opt opt' : options_t) :
  is_margin_option g = true ->
  forallb (fun x => negb (is_margin_option x)) post = true ->
  parse_options C (pre ++ g :: post) opt = Proceed opt' ->
  margin_px opt' = to_uint32 (strtoul C (optarg g)) /\
  (forall o o',
     parse_options C post o = Proceed o' -> margin_px o' = margin_px o).
Proof.
  intros Hg Hpost H.
  split; [| intros o o'; apply parse_options_other_margin; exact Hpost].
  rewrite parse_options_app in H.
  destruct (parse_options C pre opt) as [|o]; [discriminate|].
  cbn [parse_options] in H.
  destruct (option_case C g o) as [|o1] eqn:E; [discriminate|].
  rewrite (parse_options_other_margin C post o1 opt' Hpost H).
  unfold is_margin_option in Hg. apply Z.eqb_eq in Hg.
  unfold option_case in E. rewrite Hg in E. cbn in E.
  injection E as <-. reflexivity.
Qed.

Lemma parse_options_last_margin_witness :
  let C := {| strtod := fun _ => 18%Q;
              strtoul := fun s => if String.eqb s "5" then 5 else 4294967306 |}
  in
  let pre := [{| opt_c := char_code "m"; optarg := "5" |}] in
  let g := {| opt_c := char_code "m"; optarg := "4294967306" |} in
  let post := [{| opt_c := char_code "d"; optarg := "" |}] in
  exists opt,
    parse_options C (pre ++ g :: post) default_options = Proceed opt /\
    margin_px opt = 10.
Proof.
  intros C pre g post. eexists. split; [reflexivity|].
  exact (proj1 (parse_options_last_margin C pre post g default_options _
                  eq_refl eq_refl eq_refl)).
Defined.

(** ** Start-up *)

Lemma visuals_loop_find (rv : Z) (vi : list xcb_visualtype_t) :
  visuals_loop rv vi = find (fun v => visual_id v =? rv) vi.
Proof.
  induction vi as [|v rest IH]; cbn [visuals_loop find]; [reflexivity|].
  destruct (visual_id v =? rv); [reflexivity | exact IH].
Qed.

Lemma find_app {A : Type} (f : A -> bool) (l1 l2 : list A) :
  find f (l1 ++ l2)
  = match find f l1 with Some x => Some x | None => find f l2 end.
Proof.
  induction l1 as [|x l1 IH]; cbn [find app]; [reflexivity|].
  destruct (f x); [reflexivity | exact IH].
Qed.

Lemma depths_loop_find (rv : Z) (di : list xcb_depth_t) :
  depths_loop rv di
  = find (fun v => visual_id v =? rv) (List.concat (map visuals di)).
Proof.
  induction di as [|d rest IH]; cbn [depths_loop map List.concat];
    [reflexivity|].
  rewrite find_app, visuals_loop_find, IH. reflexivity.
Qed.

(** X11. [get_visualtype_for_screen] returns the first visual, in the
    order of the depths and of the visuals within a depth, whose id is the
    screen's root visual; it returns NULL exactly when no visual of any
    depth has that id. *)
Theorem get_visualtype_first_match (screen : xcb_screen_t) :
  get_visualtype_for_screen screen
  = find (fun v => visual_id v =? root_visual screen)
      (List.concat (map visuals (allowed_depths screen))) /\
  match get_visualtype_for_screen screen with
  | Some v =>
      visual_id v = root_visual screen /\
      exists d, In d (allowed_depths screen) /\ In v (visuals d)
  | None =>
      forall d v, In d (allowed_depths screen) -> In v (visuals d) ->
                  visual_id v <> root_visual screen
  end.
Proof.
  unfold get_visualtype_for_screen. rewrite depths_loop_find.
  split; [reflexivity|].
  destruct (find _ _) as [v|] eqn:F.
  - apply find_some in F. destruct F as [Hin Hid].
    split; [apply Z.eqb_eq; exact Hid|].
    apply in_concat in Hin. destruct Hin as (l & Hl & Hv).
    apply in_map_iff in Hl. destruct Hl as (d & <- & Hd).
    exists d. split; assumption.
  - intros d v Hd Hv Heq.
    pose proof (find_none _ _ F v) as N. cbv beta in N.
    rewrite (proj2 (Z.eqb_eq _ _) Heq) in N.
    assert (Hin : In v (List.concat (map visuals (allowed_depths screen)))).
    { apply in_concat. exists (visuals d). split; [|exact Hv].
      apply in_map. exact Hd. }
    specialize (N Hin). discriminate N.
Qed.

Example get_visualtype_samples :
  get_visualtype_for_screen sample_screen
  = Some {| visual_id := 33; visual_class := 4 |} /\
  get_visualtype_for_screen
    {| root := 1; root_visual := 34; width_in_pixels := 1920;
       height_in_pixels := 1080;
       allowed_depths := allowed_depths sample_screen |} = None /\
  get_visualtype_for_screen
    {| root := 1; root_visual := 33; width_in_pixels := 1920;
       height_in_pixels := 1080; allowed_depths := [] |} = None.
Proof. repeat split. Qed.

(** X12. [set_evmh_hints] never names [XCB_ATOM_NONE]: whatever atoms the
    server could or could not intern, each property change it requests is
    a replacement on the given window of a property that is not NONE, in
    format 32, with a length that is the number of its values, at least
    one, and no NONE among the values; and there are at most three. *)
Theorem set_evmh_hints_never_none (server : string -> option Z) (win : Z) :
  Forall (hint_ok win) (set_evmh_hints server win) /\
  (List.length (set_evmh_hints server win) <= 3)%nat.
Proof.
  unfold set_evmh_hints. cbv zeta.
  generalize (intern_atom server "_NET_WM_WINDOW_TYPE").
  generalize (intern_atom server "_NET_WM_WINDOW_TYPE_DOCK").
  generalize (intern_atom server "_NET_WM_STATE").
  generalize (intern_atom server "_NET_WM_STATE_ABOVE").
  generalize (intern_atom server "_NET_WM_STATE_STICKY").
  generalize (intern_atom server "_NET_WM_DESKTOP").
  intros desk sticky above state dock type.
  destruct (Z.eqb_spec type XCB_ATOM_NONE);
    destruct (Z.eqb_spec dock XCB_ATOM_NONE);
    destruct (Z.eqb_spec state XCB_ATOM_NONE);
    destruct (Z.eqb_spec sticky XCB_ATOM_NONE);
    destruct (Z.eqb_spec above XCB_ATOM_NONE);
    destruct (Z.eqb_spec desk XCB_ATOM_NONE);
    cbn [negb andb app List.length Z.of_nat Z.ltb Z.compare];
    (split; [| cbn; lia]);
    repeat (apply Forall_cons; [unfold hint_ok; cbn; repeat split;
                                try assumption; try reflexivity;
                                try discriminate;
                                repeat (apply Forall_cons; [assumption|]);
                                try apply Forall_nil |]);
    apply Forall_nil.
Qed.

(** X13. When the server interns all six atoms, the hints are, in this
    order: the window type set to dock, the state set to sticky then
    above, and the desktop set to 0xFFFFFFFF, all desktops. *)
Theorem set_evmh_hints_complete (server : string -> option Z) (win : Z) :
  intern_atom server "_NET_WM_WINDOW_TYPE" <> XCB_ATOM_NONE ->
  intern_atom server "_NET_WM_WINDOW_TYPE_DOCK" <> XCB_ATOM_NONE ->
  intern_atom server "_NET_WM_STATE" <> XCB_ATOM_NONE ->
  intern_atom server "_NET_WM_STATE_ABOVE" <> XCB_ATOM_NONE ->
  intern_atom server "_NET_WM_STATE_STICKY" <> XCB_ATOM_NONE ->
  intern_atom server "_NET_WM_DESKTOP" <> XCB_ATOM_NONE ->
  set_evmh_hints server win
  = [{| cp_mode := XCB_PROP_MODE_REPLACE; cp_window := win;
        cp_property := intern_atom server "_NET_WM_WINDOW_TYPE";
        cp_type := XCB_ATOM_ATOM; cp_format := 32; cp_data_len := 1;
        cp_data := [intern_atom server "_NET_WM_WINDOW_TYPE_DOCK"] |};
     {| cp_mode := XCB_PROP_MODE_REPLACE; cp_window := win;
        cp_property := intern_atom server "_NET_WM_STATE";
        cp_type := XCB_ATOM_ATOM; cp_format := 32; cp_data_len := 2;
        cp_data := [intern_atom server "_NET_WM_STATE_STICKY";
                    intern_atom server "_NET_WM_STATE_ABOVE"] |};
     {| cp_mode := XCB_PROP_MODE_REPLACE; cp_window := win;
        cp_property := intern_atom server "_NET_WM_DESKTOP";
        cp_type := XCB_ATOM_CARDINAL; cp_format := 32; cp_data_len := 1;
        cp_data := [4294967295] |}].
Proof.
  intros Ht Hd Hs Ha Hk Hp. unfold set_evmh_hints. cbv zeta.
  apply Z.eqb_neq in Ht, Hd, Hs, Ha, Hk, Hp.
  rewrite Ht, Hd, Hs, Ha, Hk, Hp. reflexivity.
Qed.

Lemma set_evmh_hints_complete_witness :
  List.length (set_evmh_hints sample_server 77) = 3%nat /\
  map cp_property (set_evmh_hints sample_server 77) = [19; 13; 15].
Proof.
  rewrite (set_evmh_hints_complete sample_server 77);
    try discriminate.
  split; reflexivity.
Defined.

Lemma to_int16_shift (z k : Z) : to_int16 (z + k * 65536) = to_int16 z.
Proof.
  unfold to_int16, to_signed.
  change (2 ^ (16 - 1)) with 32768. change (2 ^ 16) with 65536.
  replace (z + k * 65536 + 32768) with (z + 32768 + k * 65536) by ring.
  rewrite Z.mod_add by lia. reflexivity.
Qed.

Lemma to_int16_uint32 (z : Z) : to_int16 (to_uint32 z) = to_int16 z.
Proof.
  unfold to_uint32, to_unsigned. change (2 ^ 32) with 4294967296.
  rewrite (Z.mod_eq z 4294967296) by lia.
  replace (z - 4294967296 * (z / 4294967296))
    with (z + (- (65536 * (z / 4294967296))) * 65536) by ring.
  apply to_int16_shift.
Qed.

(** X14. The window is created where the layout would put a window 64
    wide: the [x] and [y] passed to [xcb_create_window], computed in
    unsigned arithmetic, are those of lines 360 and 361 for [win_w = 64];
    so with a margin below 32768 and the position in the range of 16 signed
    bits, [x + 64 + margin] is the screen width and [y] is the margin. *)
Theorem create_window_matches_layout (opt : options_t)
  (screen : xcb_screen_t) :
  config_okb opt (width_in_pixels screen) = true ->
  exists x y,
    create_window_geometry opt screen = (x, y, 64, 24) /\
    window_pos (margin_px opt) (width_in_pixels screen) 64 = Some (x, y) /\
    (margin_px opt < 2 ^ 15 ->
     - 2 ^ 15 <= width_in_pixels screen - 64 - margin_px opt < 2 ^ 15 ->
     x + 64 + margin_px opt = width_in_pixels screen /\ y = margin_px opt).
Proof.
  intros Hc. destruct (config_okb_spec _ _ Hc) as [Hm Hs].
  unfold create_window_geometry. cbv zeta.
  rewrite window_pos_int16 by lia.
  rewrite to_int16_uint32.
  assert (E : to_int16 (to_uint32 (width_in_pixels screen - 64)
                        - margin_px opt)
              = to_int16 (width_in_pixels screen - 64 - margin_px opt)).
  { unfold to_uint32, to_unsigned. change (2 ^ 32) with 4294967296.
    rewrite (Z.mod_eq (width_in_pixels screen - 64) 4294967296) by lia.
    set (q := (width_in_pixels screen - 64) / 4294967296).
    replace (width_in_pixels screen - 64 - 4294967296 * q - margin_px opt)
      with (width_in_pixels screen - 64 - margin_px opt
            + (- (65536 * q)) * 65536) by ring.
    apply to_int16_shift. }
  rewrite E. do 2 eexists. split; [reflexivity | split; [reflexivity|]].
  change (2 ^ 15) with 32768. intros Hlt Hge.
  rewrite !to_int16_small by lia. split; [ring | reflexivity].
Qed.

Lemma create_window_matches_layout_witness :
  config_okb default_options (width_in_pixels sample_screen) = true /\
  create_window_geometry default_options sample_screen = (1848, 8, 64, 24) /\
  window_pos 8 1920 64 = Some (1848, 8).
Proof.
  assert (H : config_okb default_options (width_in_pixels sample_screen)
              = true) by reflexivity.
  destruct (create_window_matches_layout default_options sample_screen H)
    as (x & y & Hg & Hp & _).
  split; [exact H | split; reflexivity].
Defined.

(** ** The loop, further *)

Lemma added_of (st st' : loop_state) (l : list request) :
  sent st' = (sent st ++ l)%list -> added st st' = l.
Proof.
  intros H. unfold added. rewrite H.
  rewrite skipn_app, skipn_all, Nat.sub_diag. reflexivity.
Qed.

Lemma drain_events_debug_log (queue : list xcb_generic_event_t) :
  forall b,
    snd (drain_events true queue b)
    = map (fun ev => DebugEvent (event_name (event_rt ev)) (event_rt ev))
        queue /\
    snd (drain_events false queue b) = [].
Proof.
  induction queue as [|ev rest IH]; intros b; cbn [drain_events map].
  - split; reflexivity.
  - destruct (IH (drain_step ev b)) as [T F].
    destruct (drain_events true rest (drain_step ev b)) as [f1 l1].
    destruct (drain_events false rest (drain_step ev b)) as [f2 l2].
    cbn [snd] in *. subst l1 l2. split; reflexivity.
Qed.

(** X15. In debug mode the drain logs one line per queued event, in queue
    order, and without debug it logs nothing; the name on a line is
    "Other" exactly for the events that do not ask for a redraw. *)
Theorem drain_debug_lines (queue : list xcb_generic_event_t) (b : bool)
  (rt : Z) :
  snd (drain_events true queue b)
  = map (fun ev => DebugEvent (event_name (event_rt ev)) (event_rt ev))
      queue /\
  snd (drain_events false queue b) = [] /\
  String.eqb (event_name rt) "Other" = negb (wants_redraw rt).
Proof.
  destruct (drain_events_debug_log queue b) as [T F].
  split; [exact T | split; [exact F|]].
  unfold event_name, wants_redraw.
  destruct (rt =? XCB_EXPOSE); [reflexivity|].
  destruct (rt =? XCB_VISIBILITY_NOTIFY); [reflexivity|].
  destruct (rt =? XCB_CONFIGURE_NOTIFY); reflexivity.
Qed.


Lemma need_redraw_at_decision_eq (opt : options_t) (w : wake)
  (st : loop_state) :
  need_redraw_at_decision opt w st
  = (pr w =? 0) || has_redraw_event (xqueue st ++ arrivals w).
Proof.
  unfold need_redraw_at_decision, tick. rewrite drain_events_flag.
  cbn [orb]. fold (has_redraw_event (xqueue st ++ arrivals w)).
  destruct (pr w =? 0); reflexivity.
Qed.



(** X17. Without cause the loop does not touch the window: an iteration
    that is not interrupted, did not time out, and found no Expose,
    VisibilityNotify or ConfigureNotify in the queue sends no request to X
    or cairo, keeps [last_str], and still empties the queue. *)
Theorem idle_iteration_is_silent (L : libs) (opt : options_t) (sw : Z)
  (w : wake) (st : loop_state) :
  interrupted w = false -> pr w <> 0 ->
  has_redraw_event (xqueue st ++ arrivals w) = false ->
  exists st',
    loop_body L opt sw w st = Some st' /\
    xqueue st' = [] /\ last_str st' = last_str st /\
    count is_output (added st st') = 0%nat.
Proof.
  intros Hi Hpr Hev.
  assert (Hn : need_redraw_at_decision opt w st = false).
  { rewrite need_redraw_at_decision_eq, Hev.
    apply Z.eqb_neq in Hpr. rewrite Hpr. reflexivity. }
  rewrite (loop_body_idles L opt sw w st Hi Hn).
  eexists. split; [reflexivity|]. cbn [xqueue last_str].
  split; [reflexivity | split; [reflexivity|]].
  rewrite added_app.
  change (Poll ?t :: ?l) with ([Poll t] ++ l)%list.
  rewrite count_app, count_drain_log by reflexivity. reflexivity.
Qed.

Lemma idle_iteration_is_silent_witness :
  let w := {| clock := {| tv_sec := 7; tv_nsec := 400000000 |};
              arrivals := [{| response_type := 2 |};
                           {| response_type := 19 |}];
              pr := 1; errno := 0; now := 7 |} in
  interrupted w = false /\ pr w <> 0 /\
  has_redraw_event (xqueue initial_state ++ arrivals w) = false /\
  exists st',
    loop_body (fixed_pitch 15 14 4) time_only_options 1920 w initial_state
    = Some st' /\
    xqueue st' = [] /\ last_str st' = last_str initial_state /\
    count is_output (added initial_state st') = 0%nat.
Proof.
  intros w.
  assert (H1 : interrupted w = false) by reflexivity.
  assert (H2 : pr w <> 0) by discriminate.
  assert (H3 : has_redraw_event (xqueue initial_state ++ arrivals w) = false)
    by reflexivity.
  split; [exact H1 | split; [exact H2 | split; [exact H3|]]].
  exact (idle_iteration_is_silent (fixed_pitch 15 14 4) time_only_options
           1920 w initial_state H1 H2 H3).
Defined.

Lemma substring_whole (s : string) :
  forall n, (String.length s <= n)%nat -> String.substring 0 n s = s.
Proof.
  induction s as [|c s IH]; intros n Hn.
  - destruct n; reflexivity.
  - destruct n as [|n]; cbn [String.length] in Hn; [lia|].
    cbn [String.substring]. rewrite IH by lia. reflexivity.
Qed.

Lemma now_timestr_fits (L : libs) (t : Z) (b : bool) (s : string) :
  now_timestr L t 64 b = Some s -> (String.length s <= 63)%nat.
Proof.
  unfold now_timestr, strftime.
  destruct (expand _ _) as [e|]; cbn [bind]; [|discriminate].
  destruct (Z.leb_spec (Z.of_nat (String.length e) + 1) 64) as [Hle|Hgt];
    [|discriminate].
  intros E; injection E as <-. lia.
Qed.

(** X18. After a redraw [last_str] is the text just drawn: the formatted
    time fits the 64-byte buffer, so the copy of at most 63 characters
    into [last_str] is the whole string that [cairo_show_text] received. *)
Theorem redraw_records_text (L : libs) (opt : options_t) (sw : Z)
  (w : wake) (st : loop_state) :
  interrupted w = false -> need_redraw_at_decision opt w st = true ->
  tick_okb L opt sw (now w) = true ->
  exists st' nowbuf,
    loop_body L opt sw w st = Some st' /\
    now_timestr L (now w) 64 (time_only opt) = Some nowbuf /\
    (String.length nowbuf <= 63)%nat /\
    last_str st' = nowbuf /\
    In (CairoShowText nowbuf) (added st st').
Proof.
  intros Hi Hn Hok.
  rewrite (loop_body_redraws L opt sw w st Hi Hn).
  destruct (redraw_defined L opt sw (now w) Hok)
    as (nowbuf & g & Hs & _ & _ & _ & Hr).
  rewrite Hr. cbn [bind fst snd].
  pose proof (now_timestr_fits _ _ _ _ Hs) as Hlen.
  eexists. exists nowbuf.
  split; [reflexivity | split; [exact Hs | split; [exact Hlen|]]].
  cbn [last_str]. split; [apply substring_whole; exact Hlen|].
  rewrite added_app. right. apply in_or_app. right.
  apply in_or_app. right. unfold redraw_requests.
  apply in_or_app. right. apply in_or_app. right. cbn. tauto.
Qed.

Lemma redraw_records_text_witness :
  interrupted wake_timeout = false /\
  need_redraw_at_decision time_only_options wake_timeout initial_state = true
  /\
  tick_okb (fixed_pitch 15 14 4) time_only_options 1920 (now wake_timeout)
  = true /\
  exists st',
    loop_body (fixed_pitch 15 14 4) time_only_options 1920 wake_timeout
      initial_state = Some st' /\
    last_str st' = "09:05:03"%string.
Proof.
  assert (H1 : interrupted wake_timeout = false) by reflexivity.
  assert (H2 : need_redraw_at_decision time_only_options wake_timeout
                 initial_state = true) by reflexivity.
  assert (H3 : tick_okb (fixed_pitch 15 14 4) time_only_options 1920
                 (now wake_timeout) = true)
    by (vm_compute; reflexivity).
  split; [exact H1 | split; [exact H2 | split; [exact H3|]]].
  destruct (redraw_records_text (fixed_pitch 15 14 4) time_only_options 1920
              wake_timeout initial_state H1 H2 H3)
    as (st' & nowbuf & Hl & Hs & _ & Hlast & _).
  exists st'. split; [exact Hl|].
  rewrite Hlast.
  change (now_timestr (fixed_pitch 15 14 4) (now wake_timeout) 64
            (time_only time_only_options))
    with (Some "09:05:03"%string) in Hs.
  injection Hs as <-. reflexivity.
Defined.

Lemma balanced_app (l1 l2 : list request) :
  balanced l1 -> balanced l2 -> balanced (l1 ++ l2).
Proof.
  unfold balanced. rewrite !count_app. intros (A & B & C & D) (E & F & G & H).
  lia.
Qed.

Lemma balanced_drain_log (dbg : bool) (queue : list xcb_generic_event_t)
  (b : bool) :
  balanced (snd (drain_events dbg queue b)) /\
  count is_surface_create (snd (drain_events dbg queue b)) = 0%nat.
Proof.
  unfold balanced. rewrite !count_drain_log by reflexivity.
  repeat split; reflexivity.
Qed.

Lemma balanced_redraw_requests (opt : options_t) (nowbuf : string)
  (te : cairo_text_extents_t) (fe : cairo_font_extents_t) (g : layout_t) :
  balanced (redraw_requests opt nowbuf te fe g) /\
  count is_surface_create (redraw_requests opt nowbuf te fe g) = 1%nat.
Proof.
  unfold balanced, redraw_requests, count.
  destruct (debug opt); repeat split.
Qed.

(** One iteration on valid inputs: what it sends is balanced and creates
    at most one surface. *)
Lemma loop_body_balanced (L : libs) (opt : options_t) (sw : Z)
  (w : wake) (st : loop_state) :
  tick_okb L opt sw (now w) = true ->
  exists st' l,
    loop_body L opt sw w st = Some st' /\
    sent st' = (sent st ++ l)%list /\
    balanced l /\ (count is_surface_create l <= 1)%nat.
Proof.
  intros Hok.
  destruct (interrupted w) eqn:Hi.
  - rewrite (loop_body_interrupted L opt sw w st Hi).
    do 2 eexists. split; [reflexivity | split; [reflexivity|]].
    split; [repeat split | cbn; lia].
  - destruct (need_redraw_at_decision opt w st) eqn:Hn.
    + rewrite (loop_body_redraws L opt sw w st Hi Hn).
      destruct (redraw_defined L opt sw (now w) Hok)
        as (nowbuf & g & _ & _ & _ & _ & Hr).
      rewrite Hr. cbn [bind fst snd].
      do 2 eexists. split; [reflexivity | split; [reflexivity|]].
      destruct (balanced_drain_log (debug opt) (xqueue st ++ arrivals w)
                  false) as [Bd Cd].
      destruct (balanced_redraw_requests opt nowbuf
                  (cairo_text_extents L (font_family opt) (font_size_px opt)
                     nowbuf)
                  (cairo_font_extents L (font_family opt) (font_size_px opt))
                  g) as [Br Cr].
      change (Poll ?t :: ?l) with ([Poll t] ++ l)%list.
      split.
      * apply balanced_app; [repeat split|].
        apply balanced_app; [exact Bd|].
        apply balanced_app; [repeat split | exact Br].
      * rewrite !count_app, Cd, Cr. cbn. lia.
    + rewrite (loop_body_idles L opt sw w st Hi Hn).
      do 2 eexists. split; [reflexivity | split; [reflexivity|]].
      destruct (balanced_drain_log (debug opt) (xqueue st ++ arrivals w)
                  false) as [Bd Cd].
      change (Poll ?t :: ?l) with ([Poll t] ++ l)%list.
      split.
      * apply balanced_app; [repeat split | exact Bd].
      * rewrite count_app, Cd. cbn. lia.
Qed.

Lemma run_balanced (L : libs) (opt : options_t) (sw : Z) (ws : list wake) :
  forall st,
    Forall (fun w => tick_okb L opt sw (now w) = true) ws ->
    exists st' l,
      run L opt sw ws st = Some st' /\
      sent st' = (sent st ++ l)%list /\
      balanced l /\ (count is_surface_create l <= List.length ws)%nat.
Proof.
  induction ws as [|w ws IH]; intros st Hall; cbn [run].
  - exists st, []. rewrite app_nil_r.
    split; [reflexivity | split; [reflexivity|]].
    split; [repeat split | cbn; lia].
  - inversion Hall as [|? ? Hw Hws]; subst.
    destruct (loop_body_balanced L opt sw w st Hw)
      as (st1 & l1 & H1 & S1 & B1 & C1).
    rewrite H1. cbn [bind].
    destruct (IH st1 Hws) as (st2 & l2 & H2 & S2 & B2 & C2).
    exists st2, (l1 ++ l2)%list.
    split; [exact H2|].
    split; [rewrite S2, S1, app_assoc; reflexivity|].
    split; [apply balanced_app; assumption|].
    rewrite count_app. cbn [List.length]. lia.
Qed.

(** X19. Over any number of iterations on valid inputs the loop leaks
    nothing: it destroys as many surfaces and cairo contexts as it creates,
    sends one configure request and one flush per surface, and creates at
    most one surface per iteration. *)
Theorem run_releases_what_it_creates (L : libs) (opt : options_t) (sw : Z)
  (ws : list wake) (st : loop_state) :
  Forall (fun w => tick_okb L opt sw (now w) = true) ws ->
  exists st',
    run L opt sw ws st = Some st' /\
    balanced (added st st') /\
    (count is_surface_create (added st st') <= List.length ws)%nat.
Proof.
  intros Hall.
  destruct (run_balanced L opt sw ws st Hall) as (st' & l & H & S & B & C).
  exists st'. rewrite (added_of st st' l S).
  split; [exact H | split; [exact B | exact C]].
Qed.

Lemma run_releases_what_it_creates_witness :
  let ws := [wake_signal; wake_expose; wake_timeout] in
  Forall (fun w => tick_okb (fixed_pitch 15 14 4) time_only_options 1920
                     (now w) = true) ws /\
  exists st',
    run (fixed_pitch 15 14 4) time_only_options 1920 ws initial_state
    = Some st' /\
    balanced (added initial_state st') /\
    (count is_surface_create (added initial_state st') <= 3)%nat.
Proof.
  intros ws.
  assert (H : Forall (fun w => tick_okb (fixed_pitch 15 14 4)
                                 time_only_options 1920 (now w) = true) ws)
    by (repeat (apply Forall_cons; [vm_compute; reflexivity|]);
        apply Forall_nil).
  split; [exact H|].
  exact (run_releases_what_it_creates (fixed_pitch 15 14 4)
           time_only_options 1920 ws initial_state H).
Defined.

(** ** Painting *)

Lemma pen_okb_spec (te : cairo_text_extents_t) (fe : cairo_font_extents_t) :
  pen_okb te fe = true ->
  (- inject_Z (2 ^ 30) <= x_bearing te)%Q /\
  (x_bearing te <= inject_Z (2 ^ 30))%Q /\
  (- inject_Z (2 ^ 30) <= ascent fe)%Q /\
  (ascent fe <= inject_Z (2 ^ 30))%Q.
Proof.
  unfold pen_okb. rewrite !andb_true_iff, !Qle_bool_iff. tauto.
Qed.

(** X20. The text sits inside the padding, up to the rounding of doubles:
    the pen is moved to the double differences and sums
    [margin - x_bearing] and [margin + ascent], each within 2^-22 of the
    exact value, so the left bearing is cancelled and the font's box starts
    [margin] pixels from the top to that precision; and while the window
    size does not wrap, the box of the measured text, [advance] wide and
    [ascent + descent] high from ([margin], [margin]), ends within half a
    pixel plus 2^-20 of the line [margin] pixels inside the right and the
    bottom edge of the window. *)
Theorem text_sits_in_padding (opt : options_t) (sw : Z)
  (te : cairo_text_extents_t) (fe : cairo_font_extents_t) (nowbuf : string) :
  config_okb opt sw = true -> measured_okb te fe = true ->
  pen_okb te fe = true -> margin_px opt < 2 ^ 15 ->
  exists g text_x text_y,
    layout opt sw te fe = Some g /\
    In (CairoMoveTo text_x text_y) (redraw_requests opt nowbuf te fe g) /\
    text_x = fsub (inject_Z (margin_px opt)) (x_bearing te) /\
    text_y = fadd (inject_Z (margin_px opt)) (ascent fe) /\
    (inject_Z (margin_px opt) - (1 # 4194304) <= text_x + x_bearing te)%Q /\
    (text_x + x_bearing te <= inject_Z (margin_px opt) + (1 # 4194304))%Q /\
    (inject_Z (margin_px opt) - (1 # 4194304) <= text_y - ascent fe)%Q /\
    (text_y - ascent fe <= inject_Z (margin_px opt) + (1 # 4194304))%Q /\
    (text_h g + 2 * margin_px opt < 2 ^ 16 ->
     (inject_Z (win_h g) - inject_Z (margin_px opt) - half - (1 # 1048576)
      <= text_y + descent fe)%Q /\
     (text_y + descent fe
      <= inject_Z (win_h g) - inject_Z (margin_px opt) + half
         + (1 # 1048576))%Q) /\
    (text_w g + 2 * margin_px opt < 2 ^ 16 ->
     (inject_Z (win_w g) - inject_Z (margin_px opt) - half - (1 # 1048576)
      <= inject_Z (margin_px opt) + x_advance te)%Q /\
     (inject_Z (margin_px opt) + x_advance te
      <= inject_Z (win_w g) - inject_Z (margin_px opt) + half
         + (1 # 1048576))%Q).
Proof.
  intros Hc Hm Hp Hlt. change (2 ^ 15) with 32768 in Hlt.
  pose proof (measured_okb_spec te fe Hm) as (A0 & A1 & B0 & B1).
  pose proof (pen_okb_spec te fe Hp) as (P0 & P1 & P2 & P3).
  destruct (text_size_value te fe Hm) as (_ & Tw & Th).
  destruct (config_okb_spec opt sw Hc) as [Hmr Hsw].
  destruct (fadd_range _ _ B0 B1) as [S0 S1].
  change (inject_Z (2 ^ 30)) with (1073741824 # 1)%Q in *.
  set (m := margin_px opt) in *.
  assert (M0 : (0 <= inject_Z m)%Q)
    by (change 0%Q with (inject_Z 0); rewrite <- Zle_Qle; lia).
  assert (M1 : (inject_Z m <= 32768)%Q)
    by (change 32768%Q with (inject_Z 32768); rewrite <- Zle_Qle; lia).
  assert (Big : inject_Z (2 ^ 31) = (2147483648 # 1)%Q) by reflexivity.
  (* the four roundings *)
  destruct (round64_err (inject_Z m - x_bearing te)) as [X0 X1];
    [rewrite Big; lra | rewrite Big; lra |].
  destruct (round64_err (inject_Z m + ascent fe)) as [Y0 Y1];
    [rewrite Big; lra | rewrite Big; lra |].
  destruct (round64_err (ascent fe + descent fe)) as [S2 S3];
    [rewrite Big; lra | rewrite Big; lra |].
  destruct (round64_err (fadd (ascent fe) (descent fe) + half)) as [F0 F1];
    [rewrite Big; unfold half; lra | rewrite Big; unfold half; lra |].
  destruct (round64_err (x_advance te + half)) as [W0 W1];
    [rewrite Big; unfold half; lra | rewrite Big; unfold half; lra |].
  fold (fsub (inject_Z m) (x_bearing te)) in X0, X1.
  fold (fadd (inject_Z m) (ascent fe)) in Y0, Y1.
  fold (fadd (ascent fe) (descent fe)) in S2, S3.
  fold (fadd (fadd (ascent fe) (descent fe)) half) in F0, F1.
  fold (fadd (x_advance te) half) in W0, W1.
  pose proof (Qfloor_le (fadd (fadd (ascent fe) (descent fe)) half)) as Fl.
  pose proof (Qlt_floor (fadd (fadd (ascent fe) (descent fe)) half)) as Fu.
  pose proof (Qfloor_le (fadd (x_advance te) half)) as Wl.
  pose proof (Qlt_floor (fadd (x_advance te) half)) as Wu.
  rewrite inject_Z_plus in Fu, Wu. change (inject_Z 1) with 1%Q in Fu, Wu.
  rewrite (layout_closed opt sw te fe Hc Hm). fold m.
  change (2 ^ 16) with 65536.
  rewrite (Z.mod_small m 65536) by lia.
  eexists.
  exists (fsub (inject_Z m) (x_bearing te)).
  exists (fadd (inject_Z m) (ascent fe)).
  split; [reflexivity|].
  split.
  { unfold redraw_requests. cbn [pad].
    apply in_or_app. right. apply in_or_app. right. cbn. tauto. }
  split; [reflexivity | split; [reflexivity|]].
  cbn [win_w win_h text_w text_h].
  set (tx := fsub (inject_Z m) (x_bearing te)) in *.
  set (ty := fadd (inject_Z m) (ascent fe)) in *.
  set (S := fadd (ascent fe) (descent fe)) in *.
  set (th := Qfloor (fadd S half)) in *.
  set (tw := Qfloor (fadd (x_advance te) half)) in *.
  set (F := fadd S half) in *.
  set (W := fadd (x_advance te) half) in *.
  unfold half in *.
  split; [lra | split; [lra | split; [lra | split; [lra|]]]].
  split.
  - intros Hno. rewrite (Z.mod_small (th + 2 * m)) by lia.
    rewrite inject_Z_plus, inject_Z_mult. change (inject_Z 2) with 2%Q.
    split; lra.
  - intros Hno. rewrite (Z.mod_small (tw + 2 * m)) by lia.
    rewrite inject_Z_plus, inject_Z_mult. change (inject_Z 2) with 2%Q.
    split; lra.
Qed.

Lemma text_sits_in_padding_witness :
  let opt := with_margin default_options 8 in
  let te := extents_of (241 # 2) in
  let fe := font_of (29 # 2) 4 in
  config_okb opt 1920 = true /\ measured_okb te fe = true /\
  pen_okb te fe = true /\ margin_px opt < 2 ^ 15 /\
  exists g,
    layout opt 1920 te fe = Some g /\
    In (CairoMoveTo 8 (45 # 2)) (redraw_requests opt "09:05:03" te fe g).
Proof.
  intros opt te fe.
  assert (Hc : config_okb opt 1920 = true) by reflexivity.
  assert (Hm : measured_okb te fe = true) by (vm_compute; reflexivity).
  assert (Hp : pen_okb te fe = true) by (vm_compute; reflexivity).
  assert (Hl : margin_px opt < 2 ^ 15) by reflexivity.
  split; [exact Hc | split; [exact Hm | split; [exact Hp |
    split; [exact Hl|]]]].
  destruct (text_sits_in_padding opt 1920 te fe "09:05:03" Hc Hm Hp Hl)
    as (g & tx & ty & Hg & Hin & Hx & Hy & _).
  exists g. split; [exact Hg|].
  assert (Ex : tx = 8%Q) by (rewrite Hx; vm_compute; reflexivity).
  assert (Ey : ty = (45 # 2)%Q) by (rewrite Hy; vm_compute; reflexivity).
  rewrite <- Ex, <- Ey. exact Hin.
Defined.
